(** * Trello -> ICS Shimmy: a shallow embedding of [app.py]

    The development follows the source file top-down: the Python
    primitives the program relies on (exceptions, truthiness, slices,
    [range], [str.join]), the [datetime] calls of the timing block, the
    Flask handlers, and then the properties of the calendar feed.

    Python [str] values are modelled by [string]; a character is a code
    point below 256. *)

From stdpp Require Import gmap strings list fin_maps.
From Stdlib Require Import ZArith String Ascii.

Local Open Scope string_scope.
Local Open Scope list_scope.
Local Open Scope Z_scope.

(** ** Python primitives *)

Module Py.

(** The exceptions that can leave the handlers. [KeyError] carries the
    missing key; [HTTPError] is what [raise_for_status] raises. *)
Inductive exn :=
| KeyError (key : string)
| ValueError
| OverflowError
| HTTPError.

(** A computation either returns or raises. *)
Inductive res (A : Type) :=
| Ok (a : A)
| Raise (e : exn).
Global Arguments Ok {A} a.
Global Arguments Raise {A} e.

Global Instance res_ret : MRet res := fun A a => Ok a.
Global Instance res_bind : MBind res := fun A B f m =>
  match m with
  | Ok a => f a
  | Raise e => Raise e
  end.

Definition is_ok {A} (m : res A) : bool :=
  match m with Ok _ => true | Raise _ => false end.

(** [len(s)] *)
Definition len (s : string) : Z := Z.of_nat (String.length s).

(** Truthiness of a [str]: the empty string is falsy. *)
Definition truthy (s : string) : bool :=
  match s with EmptyString => false | String _ _ => true end.

(** Truthiness of a value that is [None] or a [str] (a JSON [null] or
    string, a missing or present configuration entry). *)
Definition truthy_opt (v : option string) : bool :=
  match v with None => false | Some s => truthy s end.

(** [str(v)] for a value that is [None] or a [str], as an f-string or
    [urlencode] renders it. *)
Definition str_opt (v : option string) : string :=
  match v with None => "None" | Some s => s end.

Fixpoint str_drop (n : nat) (s : string) : string :=
  match n, s with
  | O, _ => s
  | S _, EmptyString => EmptyString
  | S n', String _ s' => str_drop n' s'
  end.

Fixpoint str_take (n : nat) (s : string) : string :=
  match n, s with
  | O, _ => EmptyString
  | S _, EmptyString => EmptyString
  | S n', String c s' => String c (str_take n' s')
  end.

(** A slice bound is clamped into [0 .. len], negative bounds counting
    from the end. *)
Definition slice_bound (n i : Z) : Z :=
  if i <? 0 then Z.max 0 (i + n) else Z.min i n.

(** [s[i:j]] *)
Definition slice (s : string) (i j : Z) : string :=
  let lo := slice_bound (len s) i in
  let hi := slice_bound (len s) j in
  str_take (Z.to_nat (hi - lo)) (str_drop (Z.to_nat lo) s).

(** [s[i:]] *)
Definition slice_from (s : string) (i : Z) : string :=
  str_drop (Z.to_nat (slice_bound (len s) i)) s.

(** [s[i]] for an index known to be in range; [None] stands for
    [IndexError]. *)
Definition index (s : string) (i : Z) : option ascii :=
  if i <? 0 then None else String.get (Z.to_nat i) s.

(** [len(range(start, stop, step))] for a non-zero step. *)
Definition range_len (start stop step : Z) : nat :=
  if 0 <? step
  then Z.to_nat ((stop - start + step - 1) / step)
  else Z.to_nat ((start - stop - step - 1) / (- step)).

(** [range(start, stop, step)]; a zero step is a [ValueError]. *)
Definition range (start stop step : Z) : res (list Z) :=
  if step =? 0 then Raise ValueError
  else Ok (map (fun k => start + Z.of_nat k * step)
               (seq 0 (range_len start stop step))).

(** [sep.join(parts)] *)
Fixpoint join (sep : string) (parts : list string) : string :=
  match parts with
  | [] => ""
  | [p] => p
  | p :: ps => p +:+ sep +:+ join sep ps
  end.

(** [s.startswith(p)] *)
Fixpoint startswith (p s : string) : bool :=
  match p, s with
  | EmptyString, _ => true
  | String a p', String b s' => Ascii.eqb a b && startswith p' s'
  | String _ _, EmptyString => false
  end.

Definition digit_val (c : ascii) : option Z :=
  let n := Z.of_N (N_of_ascii c) in
  if (48 <=? n) && (n <=? 57) then Some (n - 48) else None.

Fixpoint int_digits (acc : Z) (s : string) : option Z :=
  match s with
  | EmptyString => Some acc
  | String c s' =>
      match digit_val c with
      | Some d => int_digits (10 * acc + d) s'
      | None => None
      end
  end.

Fixpoint lstrip (s : string) : string :=
  match s with
  | String " " s' => lstrip s'
  | _ => s
  end.

(** [int(s)] for the texts [strptime] hands to it: decimal digits after
    optional leading blanks; anything else is a [ValueError]. *)
Definition int (s : string) : res Z :=
  match lstrip s with
  | EmptyString => Raise ValueError
  | t => match int_digits 0 t with
         | Some n => Ok n
         | None => Raise ValueError
         end
  end.

(** ["0" * n] *)
Definition zeros (n : Z) : string :=
  String.concat "" (replicate (Z.to_nat n) "0").

End Py.

Import Py.

(** ** A backtracking matcher for the pattern [strptime] compiles

    [datetime.strptime] turns its format into a regular expression and
    calls [re.match]. The matcher below returns every way a pattern
    matches a prefix of the input, in the order a backtracking engine
    tries them, so the head of the list is the match [re.match] reports. *)

Module Re.

Inductive re :=
| Eps
| Cls (p : ascii -> bool)
| Cat (r1 r2 : re)
| Alt (r1 r2 : re)
| Grp (name : string) (r : re).

(** [r?], greedy *)
Definition Opt (r : re) : re := Alt r Eps.

(** [r{0,n}], greedy *)
Fixpoint upto (n : nat) (r : re) : re :=
  match n with
  | O => Eps
  | S n' => Opt (Cat r (upto n' r))
  end.

(** The captured groups of a match, and the unread rest of the input. *)
Definition found := (list (string * string) * string)%type.

Definition consumed (s rest : string) : string :=
  str_take (String.length s - String.length rest)%nat s.

Fixpoint run (r : re) (s : string) : list found :=
  match r with
  | Eps => [([], s)]
  | Cls p =>
      match s with
      | String c s' => if p c then [([], s')] else []
      | EmptyString => []
      end
  | Cat r1 r2 =>
      m1 ← run r1 s;
      m2 ← run r2 m1.2;
      [(m1.1 ++ m2.1, m2.2)]
  | Alt r1 r2 => run r1 s ++ run r2 s
  | Grp name r =>
      m ← run r s;
      [((name, consumed s m.2) :: m.1, m.2)]
  end.

(** [re.match(r, s)] *)
Definition rmatch (r : re) (s : string) : option found := head (run r s).

(** [found_dict[name]] *)
Fixpoint group (name : string) (groups : list (string * string)) : option string :=
  match groups with
  | [] => None
  | (n, v) :: rest => if String.eqb n name then Some v else group name rest
  end.

(** The names of the groups a match of [r] binds, when every way through
    [r] binds the same ones ([uniform]). *)
Fixpoint names (r : re) : list string :=
  match r with
  | Eps | Cls _ => []
  | Cat r1 r2 => names r1 ++ names r2
  | Alt r1 _ => names r1
  | Grp name r => name :: names r
  end.

Fixpoint uniform (r : re) : bool :=
  match r with
  | Eps | Cls _ => true
  | Cat r1 r2 => uniform r1 && uniform r2
  | Alt r1 r2 => uniform r1 && uniform r2 && bool_decide (names r1 = names r2)
  | Grp _ r => uniform r
  end.

(** The least and the greatest number of characters a match of [r]
    reads. *)
Fixpoint min_len (r : re) : nat :=
  match r with
  | Eps => 0
  | Cls _ => 1
  | Cat r1 r2 => min_len r1 + min_len r2
  | Alt r1 r2 => Nat.min (min_len r1) (min_len r2)
  | Grp _ r => min_len r
  end.

Fixpoint max_len (r : re) : nat :=
  match r with
  | Eps => 0
  | Cls _ => 1
  | Cat r1 r2 => max_len r1 + max_len r2
  | Alt r1 r2 => Nat.max (max_len r1) (max_len r2)
  | Grp _ r => max_len r
  end.

Definition between (lo hi : ascii) : re :=
  Cls (fun c => (N.leb (N_of_ascii lo) (N_of_ascii c)
                 && N.leb (N_of_ascii c) (N_of_ascii hi))%bool).
Definition chr (a : ascii) : re := Cls (Ascii.eqb a).
(** a letter of the format under [re.IGNORECASE] *)
Definition chr_nocase (upper lower : ascii) : re :=
  Cls (fun c => (Ascii.eqb upper c || Ascii.eqb lower c)%bool).
(** [\d] *)
Definition digit : re := between "0" "9".

Fixpoint cat (rs : list re) : re :=
  match rs with
  | [] => Eps
  | [r] => r
  | r :: rs' => Cat r (cat rs')
  end.

Fixpoint alt (rs : list re) : re :=
  match rs with
  | [] => Cls (fun _ => false)
  | [r] => r
  | r :: rs' => Alt r (alt rs')
  end.

End Re.

(** ** The [datetime] calls of the timing block

    [datetime.strptime(_, "%Y-%m-%dT%H:%M:%S.%f%z")],
    [.astimezone(timezone.utc)], [.replace(hour=0, minute=0, second=0,
    microsecond=0)] and [.strftime("%Y%m%dT%H%M%SZ")], following the
    CPython library ([_strptime.py], [datetime.py]). *)

Module Datetime.
Import Re.

(** An aware [datetime]; [utcoffset] is the offset of its [timezone], in
    microseconds. *)
Record datetime := {
  year : Z;
  month : Z;
  day : Z;
  hour : Z;
  minute : Z;
  second : Z;
  microsecond : Z;
  utcoffset : Z
}.

Definition MINYEAR : Z := 1.
Definition MAXYEAR : Z := 9999.
Definition MAXORDINAL : Z := 3652059.

Definition DAYS_IN_MONTH : list Z :=
  [-1; 31; 28; 31; 30; 31; 30; 31; 31; 30; 31; 30; 31].
Definition DAYS_BEFORE_MONTH : list Z :=
  [-1; 0; 31; 59; 90; 120; 151; 181; 212; 243; 273; 304; 334].

Definition table (t : list Z) (i : Z) : Z := nth (Z.to_nat i) t (-1).

Definition is_leap (year : Z) : bool :=
  (year mod 4 =? 0) && (negb (year mod 100 =? 0) || (year mod 400 =? 0)).

Definition days_before_year (year : Z) : Z :=
  let y := year - 1 in
  y * 365 + y / 4 - y / 100 + y / 400.

Definition days_in_month (year month : Z) : Z :=
  if (month =? 2) && is_leap year then 29 else table DAYS_IN_MONTH month.

Definition days_before_month (year month : Z) : Z :=
  table DAYS_BEFORE_MONTH month
  + (if (2 <? month) && is_leap year then 1 else 0).

Definition ymd2ord (year month day : Z) : Z :=
  days_before_year year + days_before_month year month + day.

Definition DI400Y : Z := Eval cbv in days_before_year 401.
Definition DI100Y : Z := Eval cbv in days_before_year 101.
Definition DI4Y : Z := Eval cbv in days_before_year 5.

Definition ord2ymd (n : Z) : Z * Z * Z :=
  let n := n - 1 in
  let n400 := n / DI400Y in
  let n := n mod DI400Y in
  let year := n400 * 400 + 1 in
  let n100 := n / DI100Y in
  let n := n mod DI100Y in
  let n4 := n / DI4Y in
  let n := n mod DI4Y in
  let n1 := n / 365 in
  let n := n mod 365 in
  let year := year + n100 * 100 + n4 * 4 + n1 in
  if (n1 =? 4) || (n100 =? 4) then (year - 1, 12, 31)
  else
    let leapyear := (n1 =? 3) && (negb (n4 =? 24) || (n100 =? 3)) in
    let month := Z.shiftr (n + 50) 5 in
    let preceding :=
      table DAYS_BEFORE_MONTH month
      + (if (2 <? month) && leapyear then 1 else 0) in
    if n <? preceding then
      let month := month - 1 in
      let preceding :=
        preceding - (table DAYS_IN_MONTH month
                     + (if (month =? 2) && leapyear then 1 else 0)) in
      (year, month, n - preceding + 1)
    else (year, month, n - preceding + 1).

Definition check_date_fields (year month day : Z) : res unit :=
  if negb ((MINYEAR <=? year) && (year <=? MAXYEAR)) then Raise ValueError
  else if negb ((1 <=? month) && (month <=? 12)) then Raise ValueError
  else if negb ((1 <=? day) && (day <=? days_in_month year month))
  then Raise ValueError
  else Ok ().

Definition check_time_fields (hour minute second microsecond : Z) : res unit :=
  if negb ((0 <=? hour) && (hour <=? 23)) then Raise ValueError
  else if negb ((0 <=? minute) && (minute <=? 59)) then Raise ValueError
  else if negb ((0 <=? second) && (second <=? 59)) then Raise ValueError
  else if negb ((0 <=? microsecond) && (microsecond <=? 999999))
  then Raise ValueError
  else Ok ().

(** [timezone(offset)]: the offset lies strictly between -24h and 24h. *)
Definition check_timezone (offset : Z) : res unit :=
  if (-86400000000 <? offset) && (offset <? 86400000000) then Ok ()
  else Raise ValueError.

(** The directives of [TimeRE], as the library spells them. *)
Definition directive_Y : re := Grp "Y" (cat [digit; digit; digit; digit]).
Definition directive_m : re :=
  Grp "m" (alt [cat [chr "1"; between "0" "2"];
                cat [chr "0"; between "1" "9"];
                between "1" "9"]).
Definition directive_d : re :=
  Grp "d" (alt [cat [chr "3"; between "0" "1"];
                cat [between "1" "2"; digit];
                cat [chr "0"; between "1" "9"];
                between "1" "9";
                cat [chr " "; between "1" "9"]]).
Definition directive_H : re :=
  Grp "H" (alt [cat [chr "2"; between "0" "3"];
                cat [between "0" "1"; digit];
                digit]).
Definition directive_M : re :=
  Grp "M" (alt [cat [between "0" "5"; digit]; digit]).
Definition directive_S : re :=
  Grp "S" (alt [cat [chr "6"; between "0" "1"];
                cat [between "0" "5"; digit];
                digit]).
Definition directive_f : re := Grp "f" (Cat digit (upto 5 digit)).
Definition directive_z : re :=
  Grp "z"
    (alt [cat [alt [chr "+"; chr "-"]; digit; digit; Opt (chr ":");
               between "0" "5"; digit;
               Opt (cat [Opt (chr ":"); between "0" "5"; digit;
                         Opt (cat [chr "."; digit; upto 5 digit])])];
          chr "Z"]).

(** The pattern of ["%Y-%m-%dT%H:%M:%S.%f%z"], compiled with
    [re.IGNORECASE]. *)
Definition format_regex : re :=
  cat [directive_Y; chr "-"; directive_m; chr "-"; directive_d;
       chr_nocase "T" "t";
       directive_H; chr ":"; directive_M; chr ":"; directive_S; chr ".";
       directive_f; directive_z].

Definition get_group (name : string) (found_dict : list (string * string))
  : res string :=
  match group name found_dict with
  | Some v => Ok v
  | None => Raise (KeyError name)
  end.

(** The [%z] branch of [_strptime]: the offset in seconds and its
    fraction in microseconds. *)
Definition parse_z (z0 : string) : res (Z * Z) :=
  if String.eqb z0 "Z" then Ok (0, 0)
  else
    z ← (match index z0 3 with
         | Some ":"%char =>
             let z := slice z0 0 3 +:+ slice_from z0 4 in
             if 5 <? len z then
               match index z 5 with
               | Some ":"%char => Ok (slice z 0 5 +:+ slice_from z 6)
               | _ => Raise ValueError
               end
             else Ok z
         | _ => Ok z0
         end);
    hours ← int (slice z 1 3);
    minutes ← int (slice z 3 5);
    seconds ← (let t := slice z 5 7 in if truthy t then int t else Ok 0);
    let gmtoff := hours * 60 * 60 + minutes * 60 + seconds in
    let gmtoff_remainder := slice_from z 8 in
    gmtoff_fraction ←
      int (gmtoff_remainder +:+ zeros (6 - len gmtoff_remainder));
    if startswith "-" z then Ok (- gmtoff, - gmtoff_fraction)
    else Ok (gmtoff, gmtoff_fraction).

(** [datetime.strptime(data_string, "%Y-%m-%dT%H:%M:%S.%f%z")] *)
Definition strptime (data_string : string) : res datetime :=
  match rmatch format_regex data_string with
  | None => Raise ValueError
  | Some (found_dict, rest) =>
      if truthy rest then Raise ValueError
      else
        year ← get_group "Y" found_dict ≫= int;
        month ← get_group "m" found_dict ≫= int;
        day ← get_group "d" found_dict ≫= int;
        hour ← get_group "H" found_dict ≫= int;
        minute ← get_group "M" found_dict ≫= int;
        second ← get_group "S" found_dict ≫= int;
        s ← get_group "f" found_dict;
        fraction ← int (s +:+ zeros (6 - len s));
        off ← get_group "z" found_dict ≫= parse_z;
        _ ← check_date_fields year month day;
        let tzdelta := off.1 * 1000000 + off.2 in
        _ ← check_timezone tzdelta;
        _ ← check_date_fields year month day;
        _ ← check_time_fields hour minute second fraction;
        Ok {| year := year; month := month; day := day;
              hour := hour; minute := minute; second := second;
              microsecond := fraction; utcoffset := tzdelta |}
  end.

Definition toordinal (self : datetime) : Z :=
  ymd2ord (year self) (month self) (day self).

(** [self + timedelta(microseconds=delta)], keeping [tzinfo]. *)
Definition add_timedelta (self : datetime) (delta : Z) : res datetime :=
  let total :=
    ((toordinal self * 86400
      + hour self * 3600 + minute self * 60 + second self) * 1000000
     + microsecond self) + delta in
  let days := total / 86400000000 in
  let seconds := (total mod 86400000000) / 1000000 in
  let microseconds := total mod 1000000 in
  let hour := seconds / 3600 in
  let rem := seconds mod 3600 in
  let minute := rem / 60 in
  let second := rem mod 60 in
  if (0 <? days) && (days <=? MAXORDINAL) then
    let '(y, m, d) := ord2ymd days in
    Ok {| year := y; month := m; day := d;
          hour := hour; minute := minute; second := second;
          microsecond := microseconds; utcoffset := utcoffset self |}
  else Raise OverflowError.

Definition replace_tzinfo (self : datetime) (offset : Z) : datetime :=
  {| year := year self; month := month self; day := day self;
     hour := hour self; minute := minute self; second := second self;
     microsecond := microsecond self; utcoffset := offset |}.

(** [self.astimezone(timezone.utc)]: a zero offset parsed by [%z] is
    [timezone.utc] itself; otherwise the offset is subtracted and
    [timezone.utc.fromutc] adds its own zero offset. *)
Definition astimezone_utc (self : datetime) : res datetime :=
  if utcoffset self =? 0 then Ok self
  else
    utc ← add_timedelta self (- utcoffset self);
    add_timedelta (replace_tzinfo utc 0) 0.

(** [self.replace(hour=0, minute=0, second=0, microsecond=0)] *)
Definition replace_midnight (self : datetime) : datetime :=
  {| year := year self; month := month self; day := day self;
     hour := 0; minute := 0; second := 0; microsecond := 0;
     utcoffset := utcoffset self |}.

Definition digit_chr (d : Z) : ascii := ascii_of_N (Z.to_N (48 + d)).

(** two decimal digits, zero-padded: [%m], [%d], [%H], [%M], [%S] *)
Definition digits2 (n : Z) : string :=
  String (digit_chr (n / 10 mod 10)) (String (digit_chr (n mod 10)) "").

(** [%Y] as the C library behind [strftime] writes it: the decimal
    digits of the year without leading zeros, so four digits from the
    year 1000 on and fewer before ([999], [99], [9]). *)
Definition year_digits (n : Z) : string :=
  if n <? 10 then String (digit_chr n) ""
  else if n <? 100 then digits2 n
  else if n <? 1000 then String (digit_chr (n / 100)) (digits2 (n mod 100))
  else digits2 (n / 100) +:+ digits2 (n mod 100).

(** [self.strftime("%Y%m%dT%H%M%SZ")] *)
Definition strftime (self : datetime) : string :=
  year_digits (year self) +:+ digits2 (month self) +:+ digits2 (day self)
  +:+ "T"
  +:+ digits2 (hour self) +:+ digits2 (minute self) +:+ digits2 (second self)
  +:+ "Z".

End Datetime.

(** ** The text folder: [chunk_string] *)

Module App.
Import Datetime.

(** [chunk_string(string, length)]: the short-circuit on 73 characters,
    then the list comprehension over [range(0, len(string), length)]. *)
Definition chunk_string (string : String.string) (length : Z)
  : res (list String.string) :=
  if len string <=? 73 then Ok [string]
  else
    starts ← range 0 (len string) length;
    Ok (map (fun i => slice string i (i + length)) starts).

(** *** What the handlers read *)

(** A card of [/cards/visible], with the keys the handler reads:
    ["id"], ["name"], ["desc"], ["url"], ["due"], ["start"], ["idList"].
    [due] and [start] are a JSON string or [null]. *)
Record Card := {
  c_id : string;
  c_name : string;
  c_desc : string;
  c_url : string;
  c_due : option string;
  c_start : option string;
  c_idList : string
}.

(** A list of [/lists], with the keys ["id"] and ["name"]. *)
Record TList := {
  l_id : string;
  l_name : string
}.

(** [app.config]: [app.config.get(k)] is the lookup [config !! k]. *)
Abbreviation Config := (gmap string string).

(** What Trello answers to the two requests of a feed build, after
    [raise_for_status()] and [json()]. *)
Record Upstream := {
  lists_response : res (list TList);
  cards_response : res (list Card)
}.

(** The request data read by [get_auth_token]. *)
Record Request := {
  is_secure : bool;
  host : string
}.

(** What a handler returns: a body with its status and the headers the
    handler itself sets, or a redirect. The headers Flask adds to every
    response on its own ([Content-Length], and [Content-Type: text/html]
    where the handler sets none) are not part of it. *)
Inductive response :=
| Response (body : string) (status : Z) (headers : list (string * string))
| Redirect (location : string) (code : Z).

(** [make_response(body, status)]: the handler sets no header. *)
Definition make_response (body : string) (status : Z) : response :=
  Response body status [].

(** *** Upstream calls

    A handler runs against the log of the upstream requests made so far
    and either returns or raises. *)

Inductive call :=
| Get (url : string) (params : list (string * option string)).

Definition Req (A : Type) : Type := list call -> res A * list call.

Global Instance req_ret : MRet Req := fun A a log => (Ok a, log).
Global Instance req_bind : MBind Req := fun A B f m log =>
  match m log with
  | (Ok a, log') => f a log'
  | (Raise e, log') => (Raise e, log')
  end.

Definition lift {A} (m : res A) : Req A := fun log => (m, log).

(** [requests.get(url, params)] followed by [raise_for_status()] and
    [json()], answered with [answer]. *)
Definition requests_get {A} (url : string) (params : list (string * option string))
    (answer : res A) : Req A :=
  fun log => (answer, log ++ [Get url params]).

Definition LF : string := String "010"%char "".
Definition DQ : string := String "034"%char "".

Section Handlers.

Variable config : Config.
Variable trello : Upstream.

Definition get_cards : Req (list Card) :=
  requests_get
    ("https://api.trello.com/1/boards/"
       +:+ str_opt (config !! "TRELLO_BOARD_ID") +:+ "/cards/visible")
    [("key", config !! "TRELLO_ACCESS_KEY");
     ("token", config !! "TRELLO_ACCESS_TOKEN")]
    (cards_response trello).

(** [{list["id"]: list for list in r.json()}]: a later list with the
    same id replaces an earlier one. *)
Definition by_id (lists : list TList) : gmap string TList :=
  foldl (fun m list => <[l_id list := list]> m) ∅ lists.

Definition get_lists_by_id : Req (gmap string TList) :=
  lists ← requests_get
    ("https://api.trello.com/1/boards/"
       +:+ str_opt (config !! "TRELLO_BOARD_ID") +:+ "/lists")
    [("key", config !! "TRELLO_ACCESS_KEY");
     ("token", config !! "TRELLO_ACCESS_TOKEN")]
    (lists_response trello);
  mret (by_id lists).

(** [card["due"]] or [card["start"]] where the value passed the
    truthiness test, so it is a string. *)
Definition text (v : option string) : string := default "" v.

(** [strptime(..).astimezone(timezone.utc).strftime(..)] *)
Definition utc_stamp (timestamp : string) : res string :=
  d ← strptime timestamp;
  d ← astimezone_utc d;
  Ok (strftime d).

(** The same with [.replace(hour=0, minute=0, second=0, microsecond=0)]
    before [strftime]. *)
Definition utc_midnight_stamp (timestamp : string) : res string :=
  d ← strptime timestamp;
  d ← astimezone_utc d;
  Ok (strftime (replace_midnight d)).

(** The body of the [for] loop for a card that has a due value: the
    lines it appends to [ics_payload], or the exception it raises. *)
Definition vevent (lists_by_id : gmap string TList) (card : Card)
    (ics_payload : list string) : res (list string) :=
  let ics_payload := ics_payload ++ ["BEGIN:VEVENT"] in
  description ←
    (if truthy (c_desc card) then
       chunks ← chunk_string
         (c_desc card +:+ "\n\nCard URL: " +:+ c_url card) 73;
       Ok (join (LF +:+ " ") chunks)
     else
       chunks ← chunk_string ("Card URL: " +:+ c_url card) 73;
       Ok (join (LF +:+ " ") chunks));
  let ics_payload := ics_payload ++ ["DESCRIPTION:" +:+ description] in
  let ics_payload := ics_payload ++ ["URL:" +:+ c_url card] in
  list ← match lists_by_id !! c_idList card with
          | Some list => Ok list
          | None => Raise (KeyError (c_idList card))
          end;
  let ics_payload :=
    ics_payload ++ ["SUMMARY:" +:+ c_name card +:+ " [" +:+ l_name list +:+ "]"] in
  let ics_payload := ics_payload ++ ["UID:" +:+ c_id card +:+ "@trello.com"] in
  ics_payload ←
    (if truthy_opt (c_start card) then
       start_date ← utc_midnight_stamp (text (c_start card));
       due_date ← utc_stamp (text (c_due card));
       let ics_payload := ics_payload ++ ["DTSTAMP:" +:+ start_date] in
       let ics_payload := ics_payload ++ ["DTSTART:" +:+ start_date] in
       Ok (ics_payload ++ ["DTEND:" +:+ due_date])
     else
       due_date ← utc_stamp (text (c_due card));
       let ics_payload := ics_payload ++ ["DTSTAMP:" +:+ due_date] in
       let ics_payload := ics_payload ++ ["DTSTART:" +:+ due_date] in
       Ok (ics_payload ++ ["DURATION:PT1H"]));
  Ok (ics_payload ++ ["END:VEVENT"]).

(** [for card in get_cards(): ...] over the fetched cards. *)
Fixpoint for_cards (lists_by_id : gmap string TList) (cards : list Card)
    (ics_payload : list string) : res (list string) :=
  match cards with
  | [] => Ok ics_payload
  | card :: cards' =>
      if negb (truthy_opt (c_due card)) then
        for_cards lists_by_id cards' ics_payload
      else
        ics_payload ← vevent lists_by_id card ics_payload;
        for_cards lists_by_id cards' ics_payload
  end.

Definition calendar_header : list string :=
  ["BEGIN:VCALENDAR";
   "VERSION:2.0";
   "PRODID:-//Infra Bits//Trello -> ICS Shimmy//EN";
   "REFRESH-INTERVAL:PT5M"].

(** The list [ics_payload] as it stands before ["\n".join]. *)
Definition feed_payload (lists_by_id : gmap string TList) (cards : list Card)
  : res (list string) :=
  ics_payload ← for_cards lists_by_id cards calendar_header;
  Ok (ics_payload ++ ["END:VCALENDAR"]).

(** [GET /c/<access_key>.ics] *)
Definition build_ics (access_key : string) : Req response :=
  if bool_decide (Some access_key ≠ config !! "ICS_KEY") then
    mret (make_response "Not Found" 404)
  else
    lists_by_id ← get_lists_by_id;
    cards ← get_cards;
    ics_payload ← lift (feed_payload lists_by_id cards);
    mret (Response (join LF ics_payload) 200
            [("Content-Type", "text/calendar")]).

Definition token_page : string :=
  "<!doctype html>" +:+ LF
  +:+ "    <html lang=" +:+ DQ +:+ "en" +:+ DQ +:+ ">" +:+ LF
  +:+ "    <body></body>" +:+ LF
  +:+ "    <script type=" +:+ DQ +:+ "text/javascript" +:+ DQ +:+ ">" +:+ LF
  +:+ "        document.body.innerHTML = '<pre>' + window.location.hash.split('=')[1] + '</pre>';" +:+ LF
  +:+ "    </script>" +:+ LF
  +:+ "    </html>".

(** [GET /a/<access_key>/token] *)
Definition get_auth_token_callback (access_key : string) : response :=
  if bool_decide (Some access_key ≠ config !! "ICS_KEY") then
    make_response "Not Found" 404
  else make_response token_page 200.

(** [urllib.parse.quote_plus] on one character: letters, digits and
    [_.-~] stay, a blank becomes [+], every other character is the
    percent-escape of its UTF-8 bytes. *)
Definition hex_digit (n : N) : ascii :=
  if (n <? 10)%N then ascii_of_N (48 + n) else ascii_of_N (55 + n).

Definition percent (byte : N) : string :=
  String "%" (String (hex_digit (byte / 16)) (String (hex_digit (byte mod 16)) "")).

Definition always_safe (c : ascii) : bool :=
  let n := N_of_ascii c in
  ((65 <=? n) && (n <=? 90) || (97 <=? n) && (n <=? 122)
   || (48 <=? n) && (n <=? 57)
   || (n =? 95) || (n =? 46) || (n =? 45) || (n =? 126))%N.

Definition quote_char (c : ascii) : string :=
  let n := N_of_ascii c in
  if always_safe c then String c ""
  else if (n =? 32)%N then "+"
  else if (n <? 128)%N then percent n
  else percent (192 + n / 64) +:+ percent (128 + n mod 64).

Fixpoint quote_plus (s : string) : string :=
  match s with
  | EmptyString => ""
  | String c s' => quote_char c +:+ quote_plus s'
  end.

(** [urllib.parse.urlencode] of a dict whose values are [None] or [str]. *)
Definition urlencode (query : list (string * option string)) : string :=
  join "&" (map (fun kv => quote_plus kv.1 +:+ "=" +:+ quote_plus (str_opt kv.2))
                query).

(** [GET /a/<access_key>] *)
Definition get_auth_token (request : Request) (access_key : string) : response :=
  if bool_decide (Some access_key ≠ config !! "ICS_KEY") then
    make_response "Not Found" 404
  else if truthy_opt (config !! "TRELLO_ACCESS_TOKEN") then
    make_response "Token already set" 400
  else if truthy_opt (config !! "TRELLO_ACCESS_KEY") then
    make_response "Missing access key" 500
  else
    let params := urlencode
      [("key", config !! "TRELLO_ACCESS_KEY");
       ("return_url",
        Some ("http" +:+ (if is_secure request then "s" else "") +:+ "://"
                +:+ host request +:+ "/a/" +:+ access_key +:+ "/token"));
       ("callback_method", Some "fragment");
       ("response_type", Some "token");
       ("scope", Some "read");
       ("expiration", Some "never");
       ("name", Some "Trello -> ICS Shimmy")] in
    Redirect ("https://api.trello.com/1/authorize?" +:+ params) 302.

End Handlers.

(** *** Reading a payload *)

(** The lines of a block that carry the property [name]. *)
Definition field (name : string) (lines : list string) : list string :=
  List.filter (startswith name) lines.

(** How often a line occurs in a payload. *)
Definition occurrences (line : string) (lines : list string) : nat :=
  List.length (List.filter (String.eqb line) lines).

(** The cards the loop does not skip. *)
Definition due_bearing (cards : list Card) : list Card :=
  List.filter (fun card => truthy_opt (c_due card)) cards.

(** The two characters backslash and [n]. *)
Definition backslash_n : string := String "092"%char (String "n"%char "").

(** The text handed to the folder. *)
Definition raw_description (card : Card) : string :=
  if truthy (c_desc card)
  then c_desc card +:+ backslash_n +:+ backslash_n +:+ "Card URL: " +:+ c_url card
  else "Card URL: " +:+ c_url card.

(** The five lines every block starts with. *)
Definition block_head (card : Card) (chunks : list string) (tlist : TList)
  : list string :=
  ["BEGIN:VEVENT";
   "DESCRIPTION:" +:+ join (LF +:+ " ") chunks;
   "URL:" +:+ c_url card;
   "SUMMARY:" +:+ c_name card +:+ " [" +:+ l_name tlist +:+ "]";
   "UID:" +:+ c_id card +:+ "@trello.com"].

(** The text of a payload's lines when each is ended by a newline. *)
Fixpoint lines_text (lines : list string) : string :=
  match lines with
  | [] => ""
  | line :: lines' => line +:+ LF +:+ lines_text lines'
  end.




(** The timestamp as the specification writes it,
    [YYYY-MM-DDTHH:MM:SS.ffffff+HH:MM] with either sign: digits in the
    places of the letters, six of them for the fraction, and the
    punctuation as written. *)
Definition spec_timestamp_format : Re.re :=
  let d := Re.digit in
  Re.cat [d; d; d; d; Re.chr "-"; d; d; Re.chr "-"; d; d; Re.chr "T";
          d; d; Re.chr ":"; d; d; Re.chr ":"; d; d; Re.chr ".";
          d; d; d; d; d; d;
          Re.alt [Re.chr "+"; Re.chr "-"]; d; d; Re.chr ":"; d; d].

(** The whole of [s] is such a timestamp. *)
Definition matches_spec_format (s : string) : bool :=
  existsb (fun m : Re.found => negb (truthy m.2))
    (Re.run spec_timestamp_format s).

(** Every character of [s] passes [p]. *)
Fixpoint all_chars (p : ascii -> bool) (s : string) : bool :=
  match s with
  | EmptyString => true
  | String c s' => p c && all_chars p s'
  end.

(** How often the character [c] occurs in [s]. *)
Fixpoint count_char (c : ascii) (s : string) : nat :=
  match s with
  | EmptyString => O
  | String c' s' => ((if Ascii.eqb c c' then 1 else 0) + count_char c s')%nat
  end.

(** The characters [quote_plus] writes: the unreserved ones, [+] for a
    blank and the [%] and hexadecimal digits of an escape. *)
Definition quoted_char (c : ascii) : bool :=
  always_safe c || Ascii.eqb c "+" || Ascii.eqb c "%".

(** The callback address the handler hands to Trello. *)
Definition callback_url (request : Request) (access_key : string) : string :=
  "http" +:+ (if is_secure request then "s" else "") +:+ "://"
    +:+ host request +:+ "/a/" +:+ access_key +:+ "/token".

(** The location of the redirect for a client key text. *)
Definition authorize_url (client_key : string) (request : Request)
    (access_key : string) : string :=
  "https://api.trello.com/1/authorize?key=" +:+ client_key
    +:+ "&return_url=" +:+ quote_plus (callback_url request access_key)
    +:+ "&callback_method=fragment&response_type=token&scope=read"
    +:+ "&expiration=never&name=Trello+-%3E+ICS+Shimmy".

(** What a card with a due value needs for its block: its list was
    fetched, its start value, when present, can be stamped, and its due
    value can be stamped. *)
Definition mappable (lists_by_id : gmap string TList) (card : Card) : Prop :=
  is_Some (lists_by_id !! c_idList card)
  /\ (truthy_opt (c_start card) = true ->
      is_ok (utc_midnight_stamp (text (c_start card))) = true)
  /\ is_ok (utc_stamp (text (c_due card))) = true.

End App.

Import Datetime App.

(** ** Dates and instants *)

(** The integers [0 .. n-1]. *)
Definition zrange (n : nat) : list Z := map Z.of_nat (seq 0 n).

(** The month and day [_ord2ymd] reads off the day of the year [n]
    (counted from 0), in a leap year or not. *)
Definition month_day (leapyear : bool) (n : Z) : Z * Z :=
  let month := Z.shiftr (n + 50) 5 in
  let preceding :=
    table DAYS_BEFORE_MONTH month
    + (if (2 <? month) && leapyear then 1 else 0) in
  if n <? preceding then
    let month := month - 1 in
    let preceding :=
      preceding - (table DAYS_IN_MONTH month
                   + (if (month =? 2) && leapyear then 1 else 0)) in
    (month, n - preceding + 1)
  else (month, n - preceding + 1).

(** The year counted in cycles of 400, 100 and 4 years and single
    years. *)
Definition year_of (n400 n100 n4 n1 : Z) : Z :=
  400 * n400 + 100 * n100 + 4 * n4 + n1 + 1.

(** The rule [_ord2ymd] uses for leap years. *)
Definition leap_of (n100 n4 n1 : Z) : bool :=
  (n1 =? 3) && (negb (n4 =? 24) || (n100 =? 3)).

(** Days in a month and before a month, by the leap rule. *)
Definition dim_of (leapyear : bool) (month : Z) : Z :=
  if (month =? 2) && leapyear then 29 else table DAYS_IN_MONTH month.
Definition dbm_of (leapyear : bool) (month : Z) : Z :=
  table DAYS_BEFORE_MONTH month + (if (2 <? month) && leapyear then 1 else 0).

(** What the [datetime] constructor accepts. *)
Definition valid (d : datetime) : Prop :=
  MINYEAR <= year d <= MAXYEAR
  /\ 1 <= month d <= 12
  /\ 1 <= day d <= days_in_month (year d) (month d)
  /\ 0 <= hour d <= 23 /\ 0 <= minute d <= 59 /\ 0 <= second d <= 59
  /\ 0 <= microsecond d <= 999999.

(** The microseconds from midnight before 0001-01-01 to the wall clock
    of [d], and to the instant [d] denotes once its offset is taken off. *)
Definition local_us (d : datetime) : Z :=
  (toordinal d * 86400 + hour d * 3600 + minute d * 60 + second d) * 1000000
  + microsecond d.
Definition instant (d : datetime) : Z := local_us d - utcoffset d.

(** The UTC [datetime] of an instant, when its date lies in the years 1
    to 9999. *)
Definition of_instant (t : Z) : res datetime :=
  let days := t / 86400000000 in
  let seconds := (t mod 86400000000) / 1000000 in
  if (0 <? days) && (days <=? MAXORDINAL) then
    let '(y, m, d) := ord2ymd days in
    Ok {| year := y; month := m; day := d;
          hour := seconds / 3600; minute := seconds mod 3600 / 60;
          second := seconds mod 3600 mod 60;
          microsecond := t mod 1000000; utcoffset := 0 |}
  else Raise OverflowError.

(** ** Sample boards *)

Module Sample.

Definition work : TList := {| l_id := "L1"; l_name := "Work" |}.

Definition ship : Card :=
  {| c_id := "C1"; c_name := "Ship"; c_desc := "";
     c_url := "https://t.co/C1";
     c_due := Some "2024-03-10T09:00:00.000000+00:00";
     c_start := None; c_idList := "L1" |}.

Definition ship_started : Card :=
  {| c_id := "C1"; c_name := "Ship"; c_desc := "";
     c_url := "https://t.co/C1";
     c_due := Some "2024-03-10T09:00:00.000000+00:00";
     c_start := Some "2024-03-08T23:30:00.000000+02:00"; c_idList := "L1" |}.

(** A card that is skipped: no due value, a list that does not exist and
    a start value that is no timestamp. *)
Definition stray : Card :=
  {| c_id := "C2"; c_name := "Idea"; c_desc := "";
     c_url := "https://t.co/C2";
     c_due := None; c_start := Some "soon"; c_idList := "L9" |}.

(** A card with a due value on a list that does not exist. *)
Definition orphan : Card :=
  {| c_id := "C3"; c_name := "Lost"; c_desc := "";
     c_url := "https://t.co/C3";
     c_due := Some "2024-03-10T09:00:00.000000+00:00";
     c_start := None; c_idList := "L9" |}.

(** A card whose description needs folding. *)
Definition documented : Card :=
  {| c_id := "C4"; c_name := "Write";
     c_desc := "Describe the release process for the calendar bridge, step by step.";
     c_url := "https://t.co/C4";
     c_due := Some "2024-03-10T09:00:00.000000+00:00";
     c_start := None; c_idList := "L1" |}.

(** A card whose start and due values are written with an offset that
    moves them to the day before in UTC. *)
Definition overnight : Card :=
  {| c_id := "C1"; c_name := "Ship"; c_desc := "";
     c_url := "https://t.co/C1";
     c_due := Some "2024-03-10T01:00:00.000000+02:00";
     c_start := Some "2024-03-09T01:30:00.000000+02:00"; c_idList := "L1" |}.



(** A card whose due value is no timestamp, on a list that does not
    exist. *)
Definition soon_orphan : Card :=
  {| c_id := "C6"; c_name := "Later"; c_desc := "";
     c_url := "https://t.co/C6";
     c_due := Some "soon"; c_start := None; c_idList := "L9" |}.

(** A card whose due value is no timestamp and whose start value is the
    first hour of the calendar, east of Greenwich. *)
Definition soon_overflow : Card :=
  {| c_id := "C7"; c_name := "Dawn"; c_desc := "";
     c_url := "https://t.co/C7";
     c_due := Some "soon";
     c_start := Some "0001-01-01T00:00:00.000000+01:00"; c_idList := "L1" |}.

(** A card whose due value has milliseconds only and [Z] for the
    offset. *)
Definition lenient : Card :=
  {| c_id := "C1"; c_name := "Ship"; c_desc := "";
     c_url := "https://t.co/C1";
     c_due := Some "2021-05-01T12:00:00.000Z";
     c_start := None; c_idList := "L1" |}.

Definition board (cards : list Card) : Upstream :=
  {| lists_response := Ok [work]; cards_response := Ok cards |}.

Definition secret : Config := {[ "ICS_KEY" := "s3cret" ]}.

Definition secret_and_key : Config :=
  <[ "TRELLO_ACCESS_KEY" := "k3y" ]> secret.

Definition plain_request : Request := {| is_secure := true; host := "example.org" |}.

Definition ship_block : list string :=
  ["BEGIN:VEVENT";
   "DESCRIPTION:Card URL: https://t.co/C1";
   "URL:https://t.co/C1";
   "SUMMARY:Ship [Work]";
   "UID:C1@trello.com";
   "DTSTAMP:20240310T090000Z";
   "DTSTART:20240310T090000Z";
   "DURATION:PT1H";
   "END:VEVENT"].

Definition ship_started_block : list string :=
  ["BEGIN:VEVENT";
   "DESCRIPTION:Card URL: https://t.co/C1";
   "URL:https://t.co/C1";
   "SUMMARY:Ship [Work]";
   "UID:C1@trello.com";
   "DTSTAMP:20240308T000000Z";
   "DTSTART:20240308T000000Z";
   "DTEND:20240310T090000Z";
   "END:VEVENT"].

Definition overnight_block : list string :=
  ["BEGIN:VEVENT";
   "DESCRIPTION:Card URL: https://t.co/C1";
   "URL:https://t.co/C1";
   "SUMMARY:Ship [Work]";
   "UID:C1@trello.com";
   "DTSTAMP:20240308T000000Z";
   "DTSTART:20240308T000000Z";
   "DTEND:20240309T230000Z";
   "END:VEVENT"].


Definition lenient_block : list string :=
  ["BEGIN:VEVENT";
   "DESCRIPTION:Card URL: https://t.co/C1";
   "URL:https://t.co/C1";
   "SUMMARY:Ship [Work]";
   "UID:C1@trello.com";
   "DTSTAMP:20210501T120000Z";
   "DTSTART:20210501T120000Z";
   "DURATION:PT1H";
   "END:VEVENT"].

Definition documented_block : list string :=
  ["BEGIN:VEVENT";
   "DESCRIPTION:Describe the release process for the calendar bridge, step by step.\n\nCa"
     +:+ LF +:+ " rd URL: https://t.co/C4";
   "URL:https://t.co/C4";
   "SUMMARY:Write [Work]";
   "UID:C4@trello.com";
   "DTSTAMP:20240310T090000Z";
   "DTSTART:20240310T090000Z";
   "DURATION:PT1H";
   "END:VEVENT"].

Definition letters74 : string :=
  "abcdefghijklmnopqrstuvwxyzabcdefghijklmnopqrstuvwxyzabcdefghijklmnopqrstuv".

End Sample.



(** ** Strings, slices and [join] *)

Section Strings.

#[local] Arguments String.append !_ _ / : simpl nomatch.

Lemma append_empty_r (s : string) : s +:+ "" = s.
Proof. induction s as [|c s IH]; simpl; [reflexivity | now rewrite IH]. Qed.

Lemma append_assoc (a b c : string) : (a +:+ b) +:+ c = a +:+ (b +:+ c).
Proof. induction a as [|x a IH]; simpl; [reflexivity | now rewrite IH]. Qed.

Lemma length_append (a b : string) :
  String.length (a +:+ b) = (String.length a + String.length b)%nat.
Proof. induction a as [|x a IH]; simpl; [reflexivity | now rewrite IH]. Qed.

Lemma str_take_drop (n : nat) (s : string) : str_take n s +:+ str_drop n s = s.
Proof.
  revert s; induction n as [|n IH]; intros [|c s]; simpl; try reflexivity.
  now rewrite IH.
Qed.

Lemma str_take_all (n : nat) (s : string) :
  (String.length s <= n)%nat -> str_take n s = s.
Proof.
  revert s; induction n as [|n IH]; intros [|c s]; simpl; intros H;
    try reflexivity; try lia.
  rewrite IH; [reflexivity | lia].
Qed.

Lemma str_take_length (n : nat) (s : string) :
  String.length (str_take n s) = Nat.min n (String.length s).
Proof.
  revert s; induction n as [|n IH]; intros [|c s]; simpl; try reflexivity.
  now rewrite IH.
Qed.

Lemma str_drop_length (n : nat) (s : string) :
  String.length (str_drop n s) = (String.length s - n)%nat.
Proof.
  revert s; induction n as [|n IH]; intros [|c s]; simpl; try reflexivity.
  apply IH.
Qed.

Lemma str_drop_all (n : nat) (s : string) :
  (String.length s <= n)%nat -> str_drop n s = "".
Proof.
  intros H. pose proof (str_drop_length n s) as E.
  destruct (str_drop n s); [reflexivity | simpl in E; lia].
Qed.

Lemma str_drop_add (a b : nat) (s : string) :
  str_drop (a + b) s = str_drop a (str_drop b s).
Proof.
  revert a s; induction b as [|b IH]; intros a s.
  - now rewrite Nat.add_0_r.
  - rewrite Nat.add_succ_r. destruct s as [|c s]; simpl.
    + now destruct a.
    + apply IH.
Qed.

Lemma join_empty_cons (p : string) (ps : list string) :
  join "" (p :: ps) = p +:+ join "" ps.
Proof. destruct ps; simpl; [now rewrite append_empty_r | reflexivity]. Qed.

Lemma slice_bound_nat (n i : nat) :
  slice_bound (Z.of_nat n) (Z.of_nat i) = Z.of_nat (Nat.min i n).
Proof.
  unfold slice_bound. destruct (Z.ltb_spec (Z.of_nat i) 0); lia.
Qed.

(** A slice with bounds [i <= j] that are not negative takes [j - i]
    characters after dropping [i]. *)
Lemma slice_take_drop (s : string) (i n : nat) :
  slice s (Z.of_nat i) (Z.of_nat i + Z.of_nat n) = str_take n (str_drop i s).
Proof.
  unfold slice, len. rewrite <- Nat2Z.inj_add, !slice_bound_nat.
  rewrite <- Nat2Z.inj_sub by lia. rewrite !Nat2Z.id.
  destruct (Nat.le_gt_cases (String.length s) i) as [Hi|Hi].
  - rewrite (str_drop_all (Nat.min _ _)) by lia.
    rewrite (str_drop_all i) by lia. now destruct n, (_ - _)%nat.
  - rewrite (Nat.min_l i) by lia.
    destruct (Nat.le_gt_cases (i + n) (String.length s)) as [Hj|Hj].
    + rewrite Nat.min_l by lia. f_equal. lia.
    + rewrite Nat.min_r by lia.
      rewrite !str_take_all; try reflexivity;
        rewrite str_drop_length; lia.
Qed.

End Strings.

(** ** The text folder *)

Section TextFolder.

(** Cutting a string every [n] characters, [count] times, loses nothing
    when [count * n] reaches its length. *)
Lemma pieces_join (n : nat) :
  forall (count : nat) (s : string),
    (String.length s <= count * n)%nat ->
    join "" (map (fun k => str_take n (str_drop (k * n) s)) (seq 0 count)) = s.
Proof.
  induction count as [|count IH]; intros s Hlen.
  - destruct s; [reflexivity | simpl in Hlen; lia].
  - rewrite <- cons_seq, <- seq_shift. cbn [map]. rewrite map_map, join_empty_cons.
    cbn [Nat.mul str_drop].
    rewrite (map_ext _ (fun k => str_take n (str_drop (k * n) (str_drop n s)))).
    + rewrite IH; [apply str_take_drop |].
      rewrite str_drop_length. lia.
    + intros k. now rewrite (Nat.add_comm n), str_drop_add.
Qed.

Lemma pieces_length (n : nat) (s : string) (count : nat) :
  Forall (fun piece => (String.length piece <= n)%nat)
    (map (fun k => str_take n (str_drop (k * n) s)) (seq 0 count)).
Proof.
  apply Forall_map, Forall_forall. intros k _.
  rewrite str_take_length. lia.
Qed.

(** Past the short-circuit, a positive [length] cuts the string at the
    multiples of [length]. *)
Lemma chunk_string_long (s : string) (length : Z) :
  73 < len s -> 0 < length ->
  chunk_string s length =
    Ok (map (fun k => str_take (Z.to_nat length) (str_drop (k * Z.to_nat length) s))
          (seq 0 (range_len 0 (len s) length))).
Proof.
  intros Hs Hl. unfold chunk_string, range.
  destruct (Z.leb_spec (len s) 73) as [?|_]; [lia|].
  destruct (Z.eqb_spec length 0) as [?|_]; [lia|].
  cbn [mbind res_bind]. f_equal. rewrite map_map. apply map_ext. intros k.
  rewrite <- (slice_take_drop s (k * Z.to_nat length) (Z.to_nat length)).
  f_equal; lia.
Qed.

Lemma chunk_string_short (s : string) (length : Z) :
  len s <= 73 -> chunk_string s length = Ok [s].
Proof.
  intros Hs. unfold chunk_string.
  now destruct (Z.leb_spec (len s) 73); [|lia].
Qed.

Lemma range_len_covers (n length : Z) :
  0 <= n -> 0 < length ->
  n <= Z.of_nat (range_len 0 n length) * length.
Proof.
  intros Hn Hl. unfold range_len.
  destruct (Z.ltb_spec 0 length) as [_|?]; [|lia].
  pose proof (Z.div_mod (n - 0 + length - 1) length ltac:(lia)) as E.
  pose proof (Z.mod_pos_bound (n - 0 + length - 1) length Hl) as B.
  assert (0 <= (n - 0 + length - 1) / length) by (apply Z.div_pos; lia).
  rewrite Z2Nat.id by assumption. nia.
Qed.

End TextFolder.

Section TextFolderClaims.

(** C2 (as stated, refuted): with a negative chunk length the range of
    start positions is empty, so a 74-character string comes back as no
    fragments at all and their concatenation is the empty string. *)
Lemma chunk_string_negative_length_loses_input :
  chunk_string Sample.letters74 (-1) = Ok []
  /\ join "" [] <> Sample.letters74.
Proof. split; [vm_compute; reflexivity | discriminate]. Qed.

(** C2 (amended): for every input string and every positive chunk
    length, and for every chunk length when the string has at most 73
    characters, [chunk_string] returns fragments whose concatenation, in
    order and without separator, is the input string. *)
Theorem chunk_string_join (s : string) (length : Z) :
  0 < length \/ len s <= 73 ->
  exists fragments,
    chunk_string s length = Ok fragments /\ join "" fragments = s.
Proof.
  intros H. destruct (Z.le_gt_cases (len s) 73) as [Hs|Hs].
  - exists [s]. split; [now apply chunk_string_short | reflexivity].
  - destruct H as [Hl|?]; [|lia]. eexists. split.
    + apply chunk_string_long; lia.
    + apply pieces_join.
      pose proof (range_len_covers (len s) length ltac:(unfold len; lia) Hl).
      unfold len in *. nia.
Qed.

(** The 74 letters cut every 10 characters. *)
Lemma chunk_string_join_witness :
  exists fragments,
    chunk_string Sample.letters74 10 = Ok fragments
    /\ join "" fragments = Sample.letters74.
Proof. apply (chunk_string_join Sample.letters74 10). left. lia. Defined.

(** C3 (failing input): a 10-character string with maximum line length
    5 takes the short-circuit on 73 and comes back whole, as one
    fragment of length 10. *)
Theorem chunk_string_short_circuit_ignores_length :
  chunk_string "abcdefghij" 5 = Ok ["abcdefghij"]
  /\ 5 < len "abcdefghij".
Proof. split; [reflexivity | vm_compute; reflexivity]. Qed.

(** Past the short-circuit every fragment respects a positive limit. *)
Lemma chunk_string_long_fragments (s : string) (length : Z) :
  73 < len s -> 0 < length ->
  exists fragments,
    chunk_string s length = Ok fragments
    /\ Forall (fun fragment => len fragment <= length) fragments.
Proof.
  intros Hs Hl. eexists. split; [apply chunk_string_long; assumption|].
  eapply Forall_impl; [apply pieces_length|].
  intros piece Hp. unfold len. cbn beta in Hp. lia.
Qed.

(** The limit 73 the handler passes never raises. *)
Lemma chunk_string_73 (s : string) :
  exists chunks, chunk_string s 73 = Ok chunks.
Proof.
  destruct (Z.le_gt_cases (len s) 73) as [Hs|Hs].
  - rewrite chunk_string_short by assumption. eauto.
  - destruct (chunk_string_long_fragments s 73) as (f & E & _); eauto; lia.
Qed.

End TextFolderClaims.

(** ** One VEVENT block *)

Section EventMapper.

Variable lists_by_id : gmap string TList.

(** Case analysis on the next call that may raise. *)
Ltac res_step :=
  cbn beta iota zeta;
  match goal with
  | |- context [match ?x with Ok _ => _ | Raise _ => _ end] =>
      lazymatch x with
      | Ok _ => fail
      | Raise _ => fail
      | match _ with _ => _ end => fail
      | _ => destruct x eqn:?
      end
  | H : context [match ?x with Ok _ => _ | Raise _ => _ end] |- _ =>
      lazymatch x with
      | Ok _ => fail
      | Raise _ => fail
      | match _ with _ => _ end => fail
      | _ => destruct x eqn:?
      end
  end.
Ltac res_cases := repeat res_step; cbn beta iota zeta in *.

(** The lines a block appends do not depend on the payload so far. *)
Lemma vevent_prefix (card : Card) (ics_payload : list string) :
  vevent lists_by_id card ics_payload =
  match vevent lists_by_id card [] with
  | Ok block => Ok (ics_payload ++ block)
  | Raise e => Raise e
  end.
Proof.
  unfold vevent, mbind, res_bind.
  destruct (truthy (c_desc card)); res_cases; try reflexivity;
    destruct (lists_by_id !! c_idList card); try reflexivity;
    destruct (truthy_opt (c_start card)); res_cases; try reflexivity;
    cbn [app]; rewrite <- ?app_assoc; reflexivity.
Qed.

(** The shape of a block that was produced. *)
Lemma vevent_ok (card : Card) (block : list string) :
  vevent lists_by_id card [] = Ok block ->
  exists chunks tlist,
    chunk_string (raw_description card) 73 = Ok chunks
    /\ lists_by_id !! c_idList card = Some tlist
    /\ ((truthy_opt (c_start card) = true
         /\ exists start_date due_date,
              utc_midnight_stamp (text (c_start card)) = Ok start_date
              /\ utc_stamp (text (c_due card)) = Ok due_date
              /\ block = block_head card chunks tlist
                         ++ ["DTSTAMP:" +:+ start_date;
                             "DTSTART:" +:+ start_date;
                             "DTEND:" +:+ due_date;
                             "END:VEVENT"])
        \/ (truthy_opt (c_start card) = false
            /\ exists due_date,
                 utc_stamp (text (c_due card)) = Ok due_date
                 /\ block = block_head card chunks tlist
                            ++ ["DTSTAMP:" +:+ due_date;
                                "DTSTART:" +:+ due_date;
                                "DURATION:PT1H";
                                "END:VEVENT"])).
Proof.
  unfold vevent, raw_description, mbind, res_bind. intros H.
  change ("\n\nCard URL: " +:+ c_url card)
    with (backslash_n +:+ backslash_n +:+ "Card URL: " +:+ c_url card) in H.
  destruct (truthy (c_desc card));
    (destruct (chunk_string _ 73) as [chunks|] eqn:Hc; [|discriminate]);
    (destruct (lists_by_id !! c_idList card) as [tlist|] eqn:Hl; [|discriminate]);
    exists chunks, tlist; (split; [reflexivity|]); (split; [reflexivity|]);
    cbn beta iota zeta in H;
    (destruct (truthy_opt (c_start card));
     [left; split; [reflexivity|];
      destruct (utc_midnight_stamp _) as [start_date|]; [|discriminate]
     |right; split; [reflexivity|]]);
    (destruct (utc_stamp _) as [due_date|]; [|discriminate]);
    injection H as <-; eauto.
Qed.

Lemma started_block_fields (card : Card) (chunks : list string) (tlist : TList)
    (start_date due_date : string) :
  let block := block_head card chunks tlist
               ++ ["DTSTAMP:" +:+ start_date; "DTSTART:" +:+ start_date;
                   "DTEND:" +:+ due_date; "END:VEVENT"] in
  field "DESCRIPTION:" block = ["DESCRIPTION:" +:+ join (LF +:+ " ") chunks]
  /\ field "DTSTAMP:" block = ["DTSTAMP:" +:+ start_date]
  /\ field "DTSTART:" block = ["DTSTART:" +:+ start_date]
  /\ field "DTEND:" block = ["DTEND:" +:+ due_date]
  /\ field "DURATION:" block = []
  /\ occurrences "BEGIN:VEVENT" block = 1%nat.
Proof. repeat split; reflexivity. Qed.

Lemma hour_block_fields (card : Card) (chunks : list string) (tlist : TList)
    (due_date : string) :
  let block := block_head card chunks tlist
               ++ ["DTSTAMP:" +:+ due_date; "DTSTART:" +:+ due_date;
                   "DURATION:PT1H"; "END:VEVENT"] in
  field "DESCRIPTION:" block = ["DESCRIPTION:" +:+ join (LF +:+ " ") chunks]
  /\ field "DTSTAMP:" block = ["DTSTAMP:" +:+ due_date]
  /\ field "DTSTART:" block = ["DTSTART:" +:+ due_date]
  /\ field "DTEND:" block = []
  /\ field "DURATION:" block = ["DURATION:PT1H"]
  /\ occurrences "BEGIN:VEVENT" block = 1%nat.
Proof. repeat split; reflexivity. Qed.




End EventMapper.

Section EventMapperClaims.

(** C6. In a produced VEVENT block the one DESCRIPTION line is
    [DESCRIPTION:] followed by the raw text folded by [chunk_string]
    with limit 73 and joined with a newline and one blank; the raw text
    is the description, backslash-n twice, [Card URL: ] and the url when
    the description is not empty, and [Card URL: ] and the url when it
    is empty. *)
Theorem vevent_description (lists_by_id : gmap string TList) (card : Card)
    (block : list string) :
  vevent lists_by_id card [] = Ok block ->
  let raw :=
    if truthy (c_desc card)
    then c_desc card
           +:+ String "092" (String "n" (String "092" (String "n" "")))
           +:+ "Card URL: " +:+ c_url card
    else "Card URL: " +:+ c_url card in
  exists fragments,
    chunk_string raw 73 = Ok fragments
    /\ field "DESCRIPTION:" block =
         ["DESCRIPTION:" +:+ join (String "010" " ") fragments].
Proof.
  intros H.
  destruct (vevent_ok lists_by_id card block H)
    as (chunks & tlist & Hc & _ & [(_ & sd & dd & _ & _ & ->)
                                  |(_ & dd & _ & ->)]);
    exists chunks; (split; [exact Hc|]).
  - apply (started_block_fields card chunks tlist sd dd).
  - apply (hour_block_fields card chunks tlist dd).
Qed.

(** The sample card whose description is folded once. *)
Lemma vevent_description_witness :
  let card := Sample.documented in
  let raw :=
    if truthy (c_desc card)
    then c_desc card
           +:+ String "092" (String "n" (String "092" (String "n" "")))
           +:+ "Card URL: " +:+ c_url card
    else "Card URL: " +:+ c_url card in
  exists fragments,
    chunk_string raw 73 = Ok fragments
    /\ field "DESCRIPTION:" Sample.documented_block =
         ["DESCRIPTION:" +:+ join (String "010" " ") fragments].
Proof.
  apply (vevent_description (by_id [Sample.work]) Sample.documented
           Sample.documented_block); vm_compute; reflexivity.
Defined.

(** C10. Every produced VEVENT block has exactly one DTSTAMP line and
    one DTSTART line, and both carry the same value: the midnight stamp
    of the start value when the card has one, otherwise the stamp of
    the due value. *)
Theorem vevent_dtstamp (lists_by_id : gmap string TList) (card : Card)
    (block : list string) :
  vevent lists_by_id card [] = Ok block ->
  exists stamp,
    (if truthy_opt (c_start card)
     then utc_midnight_stamp (text (c_start card))
     else utc_stamp (text (c_due card))) = Ok stamp
    /\ field "DTSTAMP:" block = ["DTSTAMP:" +:+ stamp]
    /\ field "DTSTART:" block = ["DTSTART:" +:+ stamp].
Proof.
  intros H.
  destruct (vevent_ok lists_by_id card block H)
    as (chunks & tlist & _ & _ & [(Hs & sd & dd & Es & _ & ->)
                                 |(Hs & dd & Ed & ->)]);
    rewrite Hs.
  - exists sd. split; [exact Es|].
    destruct (started_block_fields card chunks tlist sd dd)
      as (_ & F1 & F2 & _). now split.
  - exists dd. split; [exact Ed|].
    destruct (hour_block_fields card chunks tlist dd)
      as (_ & F1 & F2 & _). now split.
Qed.

(** The sample card with a start value: both lines carry
    [20240308T000000Z]. *)
Lemma vevent_dtstamp_witness :
  exists stamp,
    (if truthy_opt (c_start Sample.ship_started)
     then utc_midnight_stamp (text (c_start Sample.ship_started))
     else utc_stamp (text (c_due Sample.ship_started))) = Ok stamp
    /\ field "DTSTAMP:" Sample.ship_started_block = ["DTSTAMP:" +:+ stamp]
    /\ field "DTSTART:" Sample.ship_started_block = ["DTSTART:" +:+ stamp].
Proof.
  apply (vevent_dtstamp (by_id [Sample.work]) Sample.ship_started
           Sample.ship_started_block); vm_compute; reflexivity.
Defined.

End EventMapperClaims.

(** ** Parsing timestamps *)

Section Parsing.

(** Every match of a uniform pattern binds exactly its group names. *)
Lemma run_names (r : Re.re) :
  Re.uniform r = true ->
  forall (s : string) (m : Re.found),
    m ∈ Re.run r s -> map fst m.1 = Re.names r.
Proof.
  induction r as [| p | r1 IH1 r2 IH2 | r1 IH1 r2 IH2 | name r IH];
    cbn [Re.uniform Re.names Re.run]; intros Hu s m Hm.
  - apply list_elem_of_singleton in Hm as ->. reflexivity.
  - destruct s as [|c s]; [now apply not_elem_of_nil in Hm|].
    destruct (p c); [|now apply not_elem_of_nil in Hm].
    apply list_elem_of_singleton in Hm as ->. reflexivity.
  - apply andb_prop in Hu as [Hu1 Hu2].
    apply list_elem_of_bind in Hm as (m1 & Hm & Hm1).
    apply list_elem_of_bind in Hm as (m2 & Hm & Hm2).
    apply list_elem_of_singleton in Hm as ->. cbn [fst].
    rewrite map_app, (IH1 Hu1 _ _ Hm1), (IH2 Hu2 _ _ Hm2). reflexivity.
  - apply andb_prop in Hu as [Hu Heq]. apply andb_prop in Hu as [Hu1 Hu2].
    apply bool_decide_eq_true in Heq.
    apply elem_of_app in Hm as [Hm|Hm]; [now apply (IH1 Hu1 s)|].
    rewrite Heq. now apply (IH2 Hu2 s).
  - apply list_elem_of_bind in Hm as (m1 & Hm & Hm1).
    apply list_elem_of_singleton in Hm as ->. cbn [fst map].
    now rewrite (IH Hu _ _ Hm1).
Qed.

(** A match of the timestamp pattern binds the eight directives. *)
Lemma format_regex_groups (s : string) (found_dict : list (string * string))
    (rest : string) :
  Re.rmatch format_regex s = Some (found_dict, rest) ->
  exists Y m d H M S f z,
    found_dict = [("Y", Y); ("m", m); ("d", d); ("H", H);
                  ("M", M); ("S", S); ("f", f); ("z", z)].
Proof.
  unfold Re.rmatch. intros Hm.
  assert (Hin : (found_dict, rest) ∈ Re.run format_regex s).
  { destruct (Re.run format_regex s) as [|x l]; [discriminate|].
    injection Hm as ->. left. }
  apply (run_names format_regex eq_refl) in Hin. cbn [fst] in Hin.
  change (Re.names format_regex)
    with ["Y"; "m"; "d"; "H"; "M"; "S"; "f"; "z"] in Hin.
  repeat (destruct found_dict as [|[? ?] found_dict]; [discriminate|];
          cbn [map fst] in Hin; injection Hin as <- Hin).
  destruct found_dict; [|discriminate]. repeat eexists.
Qed.

Lemma int_raises (s : string) (e : exn) : int s = Raise e -> e = ValueError.
Proof.
  unfold int. destruct (lstrip s); [congruence|].
  destruct (int_digits _ _); congruence.
Qed.

Lemma check_date_fields_raises (y m d : Z) (e : exn) :
  check_date_fields y m d = Raise e -> e = ValueError.
Proof.
  unfold check_date_fields.
  repeat match goal with |- context [if ?b then _ else _] => destruct b end;
    congruence.
Qed.

Lemma check_time_fields_raises (h m s us : Z) (e : exn) :
  check_time_fields h m s us = Raise e -> e = ValueError.
Proof.
  unfold check_time_fields.
  repeat match goal with |- context [if ?b then _ else _] => destruct b end;
    congruence.
Qed.

Lemma check_timezone_raises (offset : Z) (e : exn) :
  check_timezone offset = Raise e -> e = ValueError.
Proof. unfold check_timezone. destruct (_ && _); congruence. Qed.

(** One call that can only raise [ValueError], inside a chain of them. *)
Ltac value_error_step lemma :=
  cbn beta iota;
  lazymatch goal with
  | |- match ?x with Ok _ => _ | Raise _ => _ end = Raise _ -> _ =>
      let E := fresh "E" in
      destruct x eqn:E;
      [| intros [= <-]; first [exact (lemma _ _ E) | exact (lemma _ _ _ _ E)
                              | exact (lemma _ _ _ _ _ E)]]
  end.

Lemma parse_z_raises (z : string) (e : exn) :
  parse_z z = Raise e -> e = ValueError.
Proof.
  unfold parse_z, mbind, res_bind.
  destruct (String.eqb z "Z"); [discriminate|].
  match goal with
  | |- context [match ?x with Ok _ => _ | Raise _ => _ end] =>
      assert (Hz : forall e', x = Raise e' -> e' = ValueError);
      [| destruct x; [|intros [= <-]; now apply Hz]]
  end.
  { intros e'. destruct (index z 3) as [c|]; [|discriminate].
    destruct (Ascii.eqb_spec c ":") as [->|?].
    - destruct (_ <? _); [|discriminate].
      destruct (index _ 5) as [c'|]; [|congruence].
      destruct (Ascii.eqb_spec c' ":") as [->|?]; [discriminate|].
      repeat match goal with
             | |- context [match ?c with Ascii _ _ _ _ _ _ _ _ => _ end] =>
                 destruct c
             | |- context [if ?b then _ else _] => destruct b
             end; congruence.
    - repeat match goal with
             | |- context [match ?c with Ascii _ _ _ _ _ _ _ _ => _ end] =>
                 destruct c
             | |- context [if ?b then _ else _] => destruct b
             end; congruence. }
  do 2 value_error_step int_raises.
  match goal with
  | |- context [if truthy ?t then _ else _] => destruct (truthy t)
  end; [value_error_step int_raises|]; cbn beta iota;
    value_error_step int_raises;
    destruct (startswith _ _); discriminate.
Qed.

(** [strptime] raises nothing but [ValueError]. *)
Lemma strptime_raises (timestamp : string) (e : exn) :
  strptime timestamp = Raise e -> e = ValueError.
Proof.
  unfold strptime.
  destruct (Re.rmatch format_regex timestamp) as [[found_dict rest]|] eqn:Hm;
    [|congruence].
  destruct (truthy rest); [congruence|].
  destruct (format_regex_groups _ _ _ Hm) as (Y & m & d & H & M & S & f & z & ->).
  unfold mbind, res_bind, get_group. cbn [Re.group String.eqb Ascii.eqb Bool.eqb].
  do 7 value_error_step int_raises.
  value_error_step parse_z_raises.
  value_error_step check_date_fields_raises.
  value_error_step check_timezone_raises.
  value_error_step check_time_fields_raises.
  discriminate.
Qed.

(** A timestamp the pattern does not match to its end is a [ValueError]. *)
Lemma strptime_no_match (timestamp : string) :
  (forall found_dict, Re.rmatch format_regex timestamp <> Some (found_dict, "")) ->
  strptime timestamp = Raise ValueError.
Proof.
  intros Hno. unfold strptime.
  destruct (Re.rmatch format_regex timestamp) as [[found_dict rest]|];
    [|reflexivity].
  destruct rest; [now destruct (Hno found_dict) | reflexivity].
Qed.

End Parsing.

(** ** The feed *)

Section FeedAssembler.

Variable lists_by_id : gmap string TList.

(** A feed that is produced is its payload so far followed by the blocks
    of the cards that have a due value, in the order of the cards. *)
Lemma for_cards_ok (cards : list Card) :
  forall ics_payload out,
    for_cards lists_by_id cards ics_payload = Ok out ->
    exists blocks,
      Forall2 (fun card block => vevent lists_by_id card [] = Ok block)
        (due_bearing cards) blocks
      /\ out = ics_payload ++ List.concat blocks.
Proof.
  induction cards as [|card cards IH]; intros ics_payload out H.
  - injection H as <-. exists []. split; [constructor|].
    now rewrite app_nil_r.
  - cbn [for_cards due_bearing List.filter] in *.
    destruct (truthy_opt (c_due card)); cbn [negb] in H.
    + unfold mbind, res_bind in H. rewrite vevent_prefix in H.
      destruct (vevent lists_by_id card []) as [block|] eqn:Hb; [|discriminate].
      destruct (IH _ _ H) as (blocks & Hall & ->).
      exists (block :: blocks). split; [now constructor|].
      cbn [List.concat]. now rewrite app_assoc.
    + apply IH, H.
Qed.

(** The first card that raises ends the loop with its exception. *)
Lemma for_cards_first_raise (before : list Card) (card : Card)
    (after : list Card) (e : exn) :
  Forall (fun c => truthy_opt (c_due c) = true ->
                   is_ok (vevent lists_by_id c []) = true) before ->
  truthy_opt (c_due card) = true ->
  vevent lists_by_id card [] = Raise e ->
  forall ics_payload,
    for_cards lists_by_id (before ++ card :: after) ics_payload = Raise e.
Proof.
  intros Hbefore Hdue Hcard.
  induction Hbefore as [|c before Hc _ IH]; intros ics_payload;
    cbn [app for_cards].
  - rewrite Hdue. cbn [negb]. unfold mbind, res_bind.
    rewrite vevent_prefix, Hcard. reflexivity.
  - destruct (truthy_opt (c_due c)); cbn [negb]; [|apply IH].
    unfold mbind, res_bind. rewrite vevent_prefix.
    specialize (Hc eq_refl).
    destruct (vevent lists_by_id c []); [apply IH | discriminate].
Qed.

(** A card that raises leaves no feed, wherever it stands. *)
Lemma for_cards_raise (cards : list Card) (card : Card) (e : exn) :
  In card cards ->
  truthy_opt (c_due card) = true ->
  vevent lists_by_id card [] = Raise e ->
  forall ics_payload,
    exists e', for_cards lists_by_id cards ics_payload = Raise e'.
Proof.
  intros Hin Hdue Hcard.
  induction cards as [|c cards IH]; intros ics_payload; [contradiction|].
  cbn [for_cards]. unfold mbind, res_bind. rewrite vevent_prefix.
  destruct Hin as [->|Hin].
  - rewrite Hdue, Hcard. cbn [negb]. eauto.
  - destruct (truthy_opt (c_due c)); cbn [negb]; [|now apply IH].
    destruct (vevent lists_by_id c []); [now apply IH | eauto].
Qed.




End FeedAssembler.

Section FeedAssemblerClaims.



End FeedAssemblerClaims.

(** ** What makes a block raise *)

Section EventMapperFailures.

Variable lists_by_id : gmap string TList.

Ltac open_vevent card :=
  unfold vevent, mbind, res_bind;
  destruct (truthy (c_desc card));
  match goal with
  | |- context [chunk_string ?s 73] =>
      destruct (chunk_string_73 s) as [? ->]
  end; cbn beta iota zeta.

Lemma vevent_missing_list (card : Card) :
  lists_by_id !! c_idList card = None ->
  vevent lists_by_id card [] = Raise (KeyError (c_idList card)).
Proof. intros Hl. open_vevent card; now rewrite Hl. Qed.

Lemma vevent_start_raises (card : Card) (tlist : TList) (e : exn) :
  lists_by_id !! c_idList card = Some tlist ->
  truthy_opt (c_start card) = true ->
  utc_midnight_stamp (text (c_start card)) = Raise e ->
  vevent lists_by_id card [] = Raise e.
Proof. intros Hl Hs He. open_vevent card; now rewrite Hl, Hs, He. Qed.

Lemma vevent_due_raises (card : Card) (tlist : TList) (e : exn) :
  lists_by_id !! c_idList card = Some tlist ->
  (truthy_opt (c_start card) = false
   \/ is_ok (utc_midnight_stamp (text (c_start card))) = true) ->
  utc_stamp (text (c_due card)) = Raise e ->
  vevent lists_by_id card [] = Raise e.
Proof.
  intros Hl Hs Hd.
  open_vevent card; rewrite Hl; cbn beta iota;
    destruct (truthy_opt (c_start card)); rewrite ?Hd; try reflexivity;
    (destruct Hs as [?|Hs]; [discriminate|]);
    destruct (utc_midnight_stamp _); (discriminate || now rewrite ?Hd).
Qed.

(** A card whose list was fetched and whose stamps can be computed gets
    its block. *)
Lemma vevent_returns (card : Card) (tlist : TList) :
  lists_by_id !! c_idList card = Some tlist ->
  (truthy_opt (c_start card) = true ->
   is_ok (utc_midnight_stamp (text (c_start card))) = true) ->
  is_ok (utc_stamp (text (c_due card))) = true ->
  is_ok (vevent lists_by_id card []) = true.
Proof.
  intros Hl Hs Hd. open_vevent card; rewrite Hl; cbn beta iota;
    (destruct (truthy_opt (c_start card));
     [specialize (Hs eq_refl);
      destruct (utc_midnight_stamp _); [|discriminate] |]);
    (destruct (utc_stamp _); [reflexivity | discriminate]).
Qed.

(** A timestamp [strptime] rejects makes both stamps raise [ValueError]. *)
Lemma rejected_stamps (timestamp : string) :
  is_ok (strptime timestamp) = false ->
  utc_stamp timestamp = Raise ValueError
  /\ utc_midnight_stamp timestamp = Raise ValueError.
Proof.
  intros H. unfold utc_stamp, utc_midnight_stamp, mbind, res_bind.
  destruct (strptime timestamp) as [|e] eqn:E; [discriminate|].
  now rewrite (strptime_raises _ _ E).
Qed.

End EventMapperFailures.

(** ** The handlers *)

Section HandlerRuns.

Variable config : Config.
Variable trello : Upstream.

(** With the right key and both upstream answers, the handler makes the
    two requests and turns the payload into the response. *)
Lemma build_ics_run (access_key : string) (log : list call)
    (lists : list TList) (cards : list Card) :
  config !! "ICS_KEY" = Some access_key ->
  lists_response trello = Ok lists ->
  cards_response trello = Ok cards ->
  (build_ics config trello access_key log).1 =
  match feed_payload (by_id lists) cards with
  | Ok ics_payload =>
      Ok (Response (join LF ics_payload) 200 [("Content-Type", "text/calendar")])
  | Raise e => Raise e
  end.
Proof.
  intros Hk Hl Hc. unfold build_ics.
  rewrite bool_decide_eq_false_2 by (rewrite Hk; intros H; now apply H).
  unfold get_lists_by_id, get_cards, requests_get, lift, mbind, req_bind,
    mret, req_ret.
  rewrite Hl, Hc. now destruct (feed_payload (by_id lists) cards).
Qed.

End HandlerRuns.

Section HandlerClaims.

(** C7. The board with the one list [{id: L1, name: Work}] and the one
    card [{id: C1, name: Ship, description: empty,
    url: https://t.co/C1, due: 2024-03-10T09:00:00.000000+00:00,
    start: null, idList: L1}] gives the VEVENT block below, with the
    lines [SUMMARY:Ship [Work]], [UID:C1@trello.com],
    [DTSTART:20240310T090000Z], [DURATION:PT1H] and a DESCRIPTION line
    containing [Card URL: https://t.co/C1]; the handler answers 200 with
    that block between the calendar header and [END:VCALENDAR]. *)
Theorem example_board_feed :
  vevent (by_id [Sample.work]) Sample.ship [] =
    Ok ["BEGIN:VEVENT";
        "DESCRIPTION:Card URL: https://t.co/C1";
        "URL:https://t.co/C1";
        "SUMMARY:Ship [Work]";
        "UID:C1@trello.com";
        "DTSTAMP:20240310T090000Z";
        "DTSTART:20240310T090000Z";
        "DURATION:PT1H";
        "END:VEVENT"]
  /\ (build_ics Sample.secret (Sample.board [Sample.ship]) "s3cret" []).1 =
       Ok (Response
             (join LF
                ["BEGIN:VCALENDAR";
                 "VERSION:2.0";
                 "PRODID:-//Infra Bits//Trello -> ICS Shimmy//EN";
                 "REFRESH-INTERVAL:PT5M";
                 "BEGIN:VEVENT";
                 "DESCRIPTION:Card URL: https://t.co/C1";
                 "URL:https://t.co/C1";
                 "SUMMARY:Ship [Work]";
                 "UID:C1@trello.com";
                 "DTSTAMP:20240310T090000Z";
                 "DTSTART:20240310T090000Z";
                 "DURATION:PT1H";
                 "END:VEVENT";
                 "END:VCALENDAR"])
             200 [("Content-Type", "text/calendar")]).
Proof. split; vm_compute; reflexivity. Qed.

(** C8. On each of the three routes a path key that differs from the
    configured secret (the empty key included, and any key when no
    secret is configured) is answered 404 Not Found; the feed handler
    does so without any upstream request. *)
Theorem wrong_key_not_found (config : Config) (trello : Upstream)
    (request : Request) (access_key : string) (log : list call) :
  config !! "ICS_KEY" <> Some access_key ->
  build_ics config trello access_key log = (Ok (Response "Not Found" 404 []), log)
  /\ get_auth_token_callback config access_key = Response "Not Found" 404 []
  /\ get_auth_token config request access_key = Response "Not Found" 404 [].
Proof.
  intros Hk.
  assert (Hd : bool_decide (Some access_key <> config !! "ICS_KEY") = true)
    by (apply bool_decide_eq_true_2; congruence).
  unfold build_ics, get_auth_token_callback, get_auth_token.
  rewrite Hd. repeat split.
Qed.

(** The empty key against the secret [s3cret]. *)
Lemma wrong_key_not_found_witness :
  build_ics Sample.secret (Sample.board [Sample.ship]) "" [] =
    (Ok (Response "Not Found" 404 []), [])
  /\ get_auth_token_callback Sample.secret "" = Response "Not Found" 404 []
  /\ get_auth_token Sample.secret Sample.plain_request "" =
       Response "Not Found" 404 [].
Proof.
  apply (wrong_key_not_found Sample.secret (Sample.board [Sample.ship])
           Sample.plain_request "" []).
  vm_compute. discriminate.
Defined.

(** C4 (failing inputs): with the right path key and no access token,
    a configuration without client key is answered with the 302
    redirect (the key sent upstream is the text [None]), and a
    configuration with a client key is answered 500 "Missing access
    key". *)
Theorem get_auth_token_key_check_inverted :
  get_auth_token Sample.secret Sample.plain_request "s3cret" =
    Redirect
      ("https://api.trello.com/1/authorize?key=None"
         +:+ "&return_url=https%3A%2F%2Fexample.org%2Fa%2Fs3cret%2Ftoken"
         +:+ "&callback_method=fragment&response_type=token&scope=read"
         +:+ "&expiration=never&name=Trello+-%3E+ICS+Shimmy")
      302
  /\ get_auth_token Sample.secret_and_key Sample.plain_request "s3cret" =
       Response "Missing access key" 500 [].
Proof. split; vm_compute; reflexivity. Qed.

(** What [get_auth_token] answers once the path key is right. *)
Lemma get_auth_token_checks (config : Config) (request : Request)
    (access_key : string) :
  config !! "ICS_KEY" = Some access_key ->
  (truthy_opt (config !! "TRELLO_ACCESS_TOKEN") = true ->
   get_auth_token config request access_key =
     Response "Token already set" 400 [])
  /\ (truthy_opt (config !! "TRELLO_ACCESS_TOKEN") = false ->
      truthy_opt (config !! "TRELLO_ACCESS_KEY") = true ->
      get_auth_token config request access_key =
        Response "Missing access key" 500 [])
  /\ (truthy_opt (config !! "TRELLO_ACCESS_TOKEN") = false ->
      truthy_opt (config !! "TRELLO_ACCESS_KEY") = false ->
      exists location,
        get_auth_token config request access_key = Redirect location 302
        /\ startswith "https://api.trello.com/1/authorize?" location = true).
Proof.
  intros Hk. unfold get_auth_token.
  rewrite bool_decide_eq_false_2 by (rewrite Hk; intros H; now apply H).
  repeat split.
  - now intros ->.
  - now intros -> ->.
  - intros -> ->. eexists. split; reflexivity.
Qed.

End HandlerClaims.


(** * Further properties of the text folder *)

Section TextFolderEdges.

#[local] Arguments String.append !_ _ / : simpl nomatch.

(** X1. [chunk_string] raises in one situation only: the string has
    more than 73 characters and the length is zero; the exception is
    then the [ValueError] of [range]. *)
Theorem chunk_string_raises_iff (s : string) (length : Z) (e : exn) :
  chunk_string s length = Raise e
  <-> 73 < len s /\ length = 0 /\ e = ValueError.
Proof.
  unfold chunk_string, range, mbind, res_bind.
  destruct (Z.leb_spec (len s) 73) as [Hs|Hs].
  - split; [discriminate | lia].
  - destruct (Z.eqb_spec length 0) as [->|Hl].
    + split; [intros [= <-]; auto | now intros (_ & _ & ->)].
    + split; [discriminate | tauto].
Qed.

(** X2. Past the short-circuit a negative length yields no fragment at
    all: the input is dropped without any error. *)
Theorem chunk_string_negative_length (s : string) (length : Z) :
  73 < len s -> length < 0 -> chunk_string s length = Ok [].
Proof.
  intros Hs Hl. unfold chunk_string, range, range_len, mbind, res_bind.
  destruct (Z.leb_spec (len s) 73) as [?|_]; [lia|].
  destruct (Z.eqb_spec length 0) as [?|_]; [lia|].
  destruct (Z.ltb_spec 0 length) as [?|_]; [lia|].
  replace (Z.to_nat _) with 0%nat; [reflexivity|].
  assert ((0 - len s - length - 1) / - length < 1); [|lia].
  apply Z.div_lt_upper_bound; lia.
Qed.

(** The 74 letters with length [-5]. *)
Lemma chunk_string_negative_length_witness :
  chunk_string Sample.letters74 (-5) = Ok [].
Proof.
  apply (chunk_string_negative_length Sample.letters74 (-5));
    vm_compute; reflexivity.
Defined.

(** X3. Past the short-circuit, with a positive length, there are
    [ceil(len / length)] fragments; the fragment at position [i] has
    [min(length, len - i * length)] characters, so none is empty, none
    exceeds the length and all but the last have exactly the length. *)
Theorem chunk_string_long_shape (s : string) (length : Z) :
  73 < len s -> 0 < length ->
  exists fragments,
    chunk_string s length = Ok fragments
    /\ Z.of_nat (List.length fragments) = (len s + length - 1) / length
    /\ forall (i : nat) (fragment : string),
         nth_error fragments i = Some fragment ->
         len fragment = Z.min length (len s - Z.of_nat i * length)
         /\ 0 < len fragment.
Proof.
  intros Hs Hl. eexists. split; [apply chunk_string_long; assumption|].
  assert (Hcount : Z.of_nat (range_len 0 (len s) length)
                   = (len s + length - 1) / length).
  { unfold range_len. destruct (Z.ltb_spec 0 length) as [_|?]; [|lia].
    rewrite Z2Nat.id by (apply Z.div_pos; lia). f_equal. lia. }
  split; [now rewrite length_map, length_seq|].
  intros i fragment Hi.
  rewrite nth_error_map in Hi.
  destruct (nth_error (seq 0 _) i) as [k|] eqn:Hk; [|discriminate].
  injection Hi as <-.
  assert (Hlt : (i < range_len 0 (len s) length)%nat).
  { assert (Hn : nth_error (seq 0 (range_len 0 (len s) length)) i <> None)
      by congruence.
    apply nth_error_Some in Hn. now rewrite length_seq in Hn. }
  rewrite nth_error_seq in Hk.
  destruct (Nat.ltb_spec i (range_len 0 (len s) length)); [|lia].
  injection Hk as <-. cbn [Nat.add].
  unfold len in *. rewrite str_take_length, str_drop_length.
  pose proof (Z.mul_div_le (Z.of_nat (String.length s) + length - 1)
                length Hl) as Hq.
  assert (Z.of_nat i * length < Z.of_nat (String.length s)) by nia.
  split; nia.
Qed.

(** The 74 letters cut every 30 characters. *)
Lemma chunk_string_long_shape_witness :
  exists fragments,
    chunk_string Sample.letters74 30 = Ok fragments
    /\ Z.of_nat (List.length fragments)
       = (len Sample.letters74 + 30 - 1) / 30
    /\ forall (i : nat) (fragment : string),
         nth_error fragments i = Some fragment ->
         len fragment = Z.min 30 (len Sample.letters74 - Z.of_nat i * 30)
         /\ 0 < len fragment.
Proof.
  apply (chunk_string_long_shape Sample.letters74 30);
    vm_compute; reflexivity.
Defined.

(** X4. With the limit 73 the handler passes, [chunk_string] always
    returns at least one fragment, no fragment has more than 73
    characters, and the fragments concatenate to the input. *)
Theorem chunk_string_73_folds (s : string) :
  exists fragments,
    chunk_string s 73 = Ok fragments
    /\ fragments <> []
    /\ Forall (fun fragment => len fragment <= 73) fragments
    /\ join "" fragments = s.
Proof.
  destruct (Z.le_gt_cases (len s) 73) as [Hs|Hs].
  - exists [s]. rewrite chunk_string_short by assumption.
    repeat split; [discriminate | now constructor].
  - eexists. split; [apply chunk_string_long; lia|].
    pose proof (range_len_covers (len s) 73 ltac:(unfold len; lia) eq_refl)
      as Hcov.
    repeat split.
    + destruct (range_len 0 (len s) 73); [lia | discriminate].
    + eapply Forall_impl; [apply pieces_length|].
      intros piece Hp. unfold len. cbn beta in Hp. lia.
    + apply pieces_join. unfold len in *. lia.
Qed.

End TextFolderEdges.

(** * Further properties of the feed handler *)

Section ListIndex.

(** The index after one more list. *)
Lemma by_id_snoc (lists : list TList) (tlist : TList) :
  by_id (lists ++ [tlist]) = <[l_id tlist := tlist]> (by_id lists).
Proof. unfold by_id. now rewrite foldl_app. Qed.

(** X5. Looking an id up in the index built by [get_lists_by_id] gives
    the last of the fetched lists that has this id, and nothing when no
    fetched list has it. *)
Theorem by_id_lookup (lists : list TList) (id : string) :
  by_id lists !! id
  = last (List.filter (fun tlist => String.eqb (l_id tlist) id) lists).
Proof.
  induction lists as [|tlist lists IH] using rev_ind; [reflexivity|].
  rewrite by_id_snoc, lookup_insert, List.filter_app. cbn [List.filter].
  destruct (String.eqb_spec (l_id tlist) id) as [->|Hne].
  - rewrite decide_True by reflexivity. now rewrite last_snoc.
  - rewrite decide_False by assumption. now rewrite app_nil_r.
Qed.

End ListIndex.

Section UpstreamRequests.

Variable config : Config.
Variable trello : Upstream.

(** X6. With the right key the handler first requests the board's
    lists and, only when that request succeeded, the board's visible
    cards; both requests carry the configured key and token, and no
    other request is made, whether the feed is produced or not. *)
Theorem build_ics_requests (access_key : string) (log : list call) :
  config !! "ICS_KEY" = Some access_key ->
  let board := "https://api.trello.com/1/boards/"
                 +:+ str_opt (config !! "TRELLO_BOARD_ID") in
  let credentials := [("key", config !! "TRELLO_ACCESS_KEY");
                      ("token", config !! "TRELLO_ACCESS_TOKEN")] in
  (build_ics config trello access_key log).2
  = log ++ Get (board +:+ "/lists") credentials
        :: (if is_ok (lists_response trello)
            then [Get (board +:+ "/cards/visible") credentials]
            else []).
Proof.
  intros Hk. unfold build_ics.
  rewrite bool_decide_eq_false_2 by (rewrite Hk; intros H; now apply H).
  unfold get_lists_by_id, get_cards, requests_get, lift, mbind, req_bind,
    mret, req_ret.
  rewrite !append_assoc.
  destruct (lists_response trello); cbn [is_ok snd]; [|reflexivity].
  destruct (cards_response trello); cbn [snd].
  - destruct (feed_payload _ _); cbn [snd]; now rewrite <- app_assoc.
  - now rewrite <- app_assoc.
Qed.

(** X7. With the right key, the exception of a failed upstream request
    leaves the handler unchanged: the one of the lists request, or,
    when the lists arrived, the one of the cards request. *)
Theorem build_ics_upstream_failure (access_key : string) (log : list call)
    (e : exn) :
  config !! "ICS_KEY" = Some access_key ->
  lists_response trello = Raise e
  \/ (is_ok (lists_response trello) = true /\ cards_response trello = Raise e) ->
  (build_ics config trello access_key log).1 = Raise e.
Proof.
  intros Hk Hfail. unfold build_ics.
  rewrite bool_decide_eq_false_2 by (rewrite Hk; intros H; now apply H).
  unfold get_lists_by_id, get_cards, requests_get, lift, mbind, req_bind,
    mret, req_ret.
  destruct Hfail as [->|[Hl ->]]; [reflexivity|].
  now destruct (lists_response trello).
Qed.

End UpstreamRequests.

(** The lists request of the sample configuration fails. *)
Lemma build_ics_requests_witness :
  (build_ics Sample.secret
     {| lists_response := Raise HTTPError; cards_response := Ok [] |}
     "s3cret" []).2
  = [Get "https://api.trello.com/1/boards/None/lists"
       [("key", None); ("token", None)]].
Proof.
  apply (build_ics_requests Sample.secret
           {| lists_response := Raise HTTPError; cards_response := Ok [] |}
           "s3cret" []).
  vm_compute. reflexivity.
Defined.

(** The cards request fails after the lists arrived. *)
Lemma build_ics_upstream_failure_witness :
  (build_ics Sample.secret
     {| lists_response := Ok [Sample.work]; cards_response := Raise HTTPError |}
     "s3cret" []).1
  = Raise HTTPError.
Proof.
  apply (build_ics_upstream_failure Sample.secret
           {| lists_response := Ok [Sample.work];
              cards_response := Raise HTTPError |}
           "s3cret" [] HTTPError).
  - vm_compute. reflexivity.
  - right. split; reflexivity.
Defined.

Section FeedOutcome.

Variable lists_by_id : gmap string TList.

Lemma astimezone_utc_raises (d : datetime) (e : exn) :
  astimezone_utc d = Raise e -> e = OverflowError.
Proof.
  assert (Hadd : forall self delta e',
            add_timedelta self delta = Raise e' -> e' = OverflowError).
  { intros self delta e'. unfold add_timedelta.
    destruct (_ && _); [destruct (ord2ymd _) as [[? ?] ?]; discriminate|].
    congruence. }
  unfold astimezone_utc, mbind, res_bind.
  destruct (_ =? _); [discriminate|].
  destruct (add_timedelta d _) eqn:E; [apply Hadd | intros [= <-]; eauto].
Qed.

Lemma utc_stamp_raises (timestamp : string) (e : exn) :
  utc_stamp timestamp = Raise e \/ utc_midnight_stamp timestamp = Raise e ->
  e = ValueError \/ e = OverflowError.
Proof.
  unfold utc_stamp, utc_midnight_stamp, mbind, res_bind.
  destruct (strptime timestamp) as [d|e'] eqn:Hp.
  - destruct (astimezone_utc d) eqn:Ha; [intros [?|?]; discriminate|].
    intros [[= <-]|[= <-]]; right; eauto using astimezone_utc_raises.
  - intros [[= <-]|[= <-]]; left; eauto using strptime_raises.
Qed.

(** Why a block can fail. *)
Lemma vevent_raise_inv (card : Card) (e : exn) :
  vevent lists_by_id card [] = Raise e ->
  (lists_by_id !! c_idList card = None /\ e = KeyError (c_idList card))
  \/ e = ValueError \/ e = OverflowError.
Proof.
  unfold vevent, mbind, res_bind.
  destruct (truthy (c_desc card));
    match goal with
    | |- context [chunk_string ?s 73] => destruct (chunk_string_73 s) as [? ->]
    end; cbn beta iota zeta;
    (destruct (lists_by_id !! c_idList card);
     [|intros [= <-]; left; now split]);
    (destruct (truthy_opt (c_start card));
     [destruct (utc_midnight_stamp _) eqn:Es;
      [|intros [= <-]; right; eauto using utc_stamp_raises]|]);
    (destruct (utc_stamp _) eqn:Ed;
     [discriminate | intros [= <-]; right; eauto using utc_stamp_raises]).
Qed.

Lemma vevent_ok_mappable (card : Card) :
  is_ok (vevent lists_by_id card []) = true <-> mappable lists_by_id card.
Proof.
  unfold mappable. split.
  - destruct (vevent lists_by_id card []) as [block|] eqn:H; [|discriminate].
    intros _.
    destruct (vevent_ok lists_by_id card block H)
      as (chunks & tlist & _ & -> & [(Hs & sd & dd & -> & -> & _)
                                    |(Hs & dd & -> & _)]);
      rewrite Hs; repeat split; eauto; discriminate.
  - intros ([tlist Hl] & Hs & Hd). eauto using vevent_returns.
Qed.

(** The loop returns when every block it has to build is returned. *)
Lemma for_cards_returns (cards : list Card) :
  Forall (fun card => is_ok (vevent lists_by_id card []) = true)
    (due_bearing cards) ->
  forall ics_payload, is_ok (for_cards lists_by_id cards ics_payload) = true.
Proof.
  induction cards as [|card cards IH]; intros Hall ics_payload; [reflexivity|].
  cbn [for_cards due_bearing List.filter] in *.
  destruct (truthy_opt (c_due card)); cbn [negb]; [|now apply IH].
  apply Forall_cons in Hall as [Hcard Hall].
  unfold mbind, res_bind. rewrite vevent_prefix.
  destruct (vevent lists_by_id card []); [now apply IH | discriminate].
Qed.

(** An exception of the loop is the exception of one of its blocks. *)
Lemma for_cards_raise_inv (cards : list Card) (e : exn) :
  forall ics_payload,
    for_cards lists_by_id cards ics_payload = Raise e ->
    exists card,
      In card cards /\ truthy_opt (c_due card) = true
      /\ vevent lists_by_id card [] = Raise e.
Proof.
  induction cards as [|card cards IH]; intros ics_payload; [discriminate|].
  cbn [for_cards]. destruct (truthy_opt (c_due card)) eqn:Hdue; cbn [negb].
  - unfold mbind, res_bind. rewrite vevent_prefix.
    destruct (vevent lists_by_id card []) eqn:Hb.
    + intros H. destruct (IH _ H) as (c & Hin & Hc). exists c.
      split; [now right | exact Hc].
    + intros [= <-]. exists card. repeat split; auto. now left.
  - intros H. destruct (IH _ H) as (c & Hin & Hc). exists c.
    split; [now right | exact Hc].
Qed.

(** The loop sees the cards with a due value only. *)
Lemma for_cards_due_bearing (cards : list Card) :
  forall ics_payload,
    for_cards lists_by_id cards ics_payload
    = for_cards lists_by_id (due_bearing cards) ics_payload.
Proof.
  induction cards as [|card cards IH]; intros ics_payload; [reflexivity|].
  cbn [for_cards due_bearing List.filter].
  destruct (truthy_opt (c_due card)) eqn:Hdue; cbn [negb for_cards].
  - rewrite Hdue. cbn [negb]. unfold mbind, res_bind.
    destruct (vevent _ _ _); [apply IH | reflexivity].
  - apply IH.
Qed.

End FeedOutcome.

(** ** Cards that cannot be mapped *)

Section FailureClaims.

(** A timestamp [strptime] accepts can only fail in the conversion to
    UTC, with [OverflowError]. *)
Lemma accepted_stamps_raise (timestamp : string) :
  is_ok (strptime timestamp) = true ->
  (is_ok (utc_stamp timestamp) = false ->
   utc_stamp timestamp = Raise OverflowError)
  /\ (is_ok (utc_midnight_stamp timestamp) = false ->
      utc_midnight_stamp timestamp = Raise OverflowError).
Proof.
  unfold utc_stamp, utc_midnight_stamp, mbind, res_bind.
  destruct (strptime timestamp) as [d|]; [|discriminate]. intros _.
  destruct (astimezone_utc d) as [u|e] eqn:E; [split; discriminate|].
  rewrite (astimezone_utc_raises _ _ E). split; reflexivity.
Qed.

(** C9 (as stated, refuted), on four boards. A card without due value
    is skipped before its list is looked up or its start value parsed:
    the board whose only card has no due value, sits on a list that does
    not exist and has a start value that is no timestamp gets the empty
    calendar. A due value with milliseconds and [Z] is not written
    [YYYY-MM-DDTHH:MM:SS.ffffff+HH:MM], yet [strptime] accepts it and
    the card gets its event. A due value that is no timestamp raises
    the [KeyError] of the list lookup, not a [ValueError], when the
    list is missing too, and the [OverflowError] of the start value
    when that cannot be converted. *)
Lemma card_failures_differ :
  (by_id [Sample.work] !! c_idList Sample.stray = None
   /\ strptime (text (c_start Sample.stray)) = Raise ValueError
   /\ (build_ics Sample.secret (Sample.board [Sample.stray]) "s3cret" []).1 =
        Ok (Response
              (join LF
                 ["BEGIN:VCALENDAR";
                  "VERSION:2.0";
                  "PRODID:-//Infra Bits//Trello -> ICS Shimmy//EN";
                  "REFRESH-INTERVAL:PT5M";
                  "END:VCALENDAR"])
              200 [("Content-Type", "text/calendar")]))
  /\ (matches_spec_format "2024-03-10T09:00:00.000000+00:00" = true
      /\ matches_spec_format "2021-05-01T12:00:00.000Z" = false
      /\ (build_ics Sample.secret (Sample.board [Sample.lenient]) "s3cret" []).1 =
           Ok (Response
                 (join LF (calendar_header ++ Sample.lenient_block
                             ++ ["END:VCALENDAR"]))
                 200 [("Content-Type", "text/calendar")]))
  /\ (matches_spec_format "soon" = false
      /\ (build_ics Sample.secret (Sample.board [Sample.soon_orphan])
            "s3cret" []).1 = Raise (KeyError "L9"))
  /\ (build_ics Sample.secret (Sample.board [Sample.soon_overflow])
        "s3cret" []).1 = Raise OverflowError.
Proof. repeat split; vm_compute; reflexivity. Qed.

(** C9 (amended). During feed assembly a card with a due value that
    cannot be mapped makes the handler raise, wherever the card stands:
    no response and no partial feed is produced. When no earlier card
    raises, the exception is the [KeyError] (a [LookupError]) on the
    list identifier when the fetched lists have no entry for it,
    whatever the timestamps; with the list found, the [ValueError] of a
    start value that is not empty and that [strptime] rejects, or the
    [OverflowError] of one it accepts and whose conversion to UTC
    fails; and with the list found and the start value absent, empty or
    stamped, the [ValueError] of a due value that [strptime] rejects,
    or the [OverflowError] of one it accepts and whose conversion
    fails. Cards without due value are skipped and raise nothing: every
    exception is the one of the block of a card with a due value, and
    the outcome is the one of the board without the cards that have no
    due value. *)
Theorem due_card_failure_aborts (config : Config) (trello : Upstream)
    (access_key : string) (log : list call) (lists : list TList)
    (before : list Card) (card : Card) (after : list Card) :
  config !! "ICS_KEY" = Some access_key ->
  lists_response trello = Ok lists ->
  cards_response trello = Ok (before ++ card :: after) ->
  truthy_opt (c_due card) = true ->
  let outcome := (build_ics config trello access_key log).1 in
  let missing_list := by_id lists !! c_idList card = None in
  let start_given := truthy_opt (c_start card) = true in
  let start_rejected := is_ok (strptime (text (c_start card))) = false in
  let start_stamped :=
    is_ok (utc_midnight_stamp (text (c_start card))) = true in
  let due_rejected := is_ok (strptime (text (c_due card))) = false in
  let due_stamped := is_ok (utc_stamp (text (c_due card))) = true in
  (missing_list
   \/ (start_given /\ (start_rejected \/ ~ start_stamped))
   \/ due_rejected \/ ~ due_stamped ->
   exists e, outcome = Raise e)
  /\ (Forall (fun c => truthy_opt (c_due c) = true ->
                       is_ok (vevent (by_id lists) c []) = true) before ->
      (missing_list -> outcome = Raise (KeyError (c_idList card)))
      /\ (~ missing_list -> start_given -> start_rejected ->
          outcome = Raise ValueError)
      /\ (~ missing_list -> start_given ->
          ~ start_rejected -> ~ start_stamped ->
          outcome = Raise OverflowError)
      /\ (~ missing_list -> (start_given -> start_stamped) ->
          due_rejected -> outcome = Raise ValueError)
      /\ (~ missing_list -> (start_given -> start_stamped) ->
          ~ due_rejected -> ~ due_stamped ->
          outcome = Raise OverflowError))
  /\ (forall e, outcome = Raise e ->
      exists c, In c (before ++ card :: after)
                /\ truthy_opt (c_due c) = true
                /\ vevent (by_id lists) c [] = Raise e)
  /\ outcome
     = (build_ics config
          {| lists_response := Ok lists;
             cards_response := Ok (due_bearing (before ++ card :: after)) |}
          access_key log).1.
Proof.
  intros Hk Hl Hc Hdue outcome missing_list start_given start_rejected
    start_stamped due_rejected due_stamped.
  subst outcome missing_list start_given start_rejected start_stamped
    due_rejected due_stamped.
  rewrite (build_ics_run config trello access_key log lists _ Hk Hl Hc).
  rewrite (build_ics_run config
             {| lists_response := Ok lists;
                cards_response := Ok (due_bearing (before ++ card :: after)) |}
             access_key log lists
             (due_bearing (before ++ card :: after)) Hk eq_refl eq_refl).
  unfold feed_payload, mbind, res_bind.
  split; [|split; [|split]].
  - intros Hbad.
    assert (Hno : ~ mappable (by_id lists) card).
    { intros (Hlist & Hs & Hd).
      destruct Hbad as [Hm|[[Hg [Hr|Hn]]|[Hr|Hn]]].
      - rewrite Hm in Hlist. now destruct Hlist.
      - apply rejected_stamps in Hr as [_ Hr]. specialize (Hs Hg).
        rewrite Hr in Hs. discriminate.
      - auto.
      - apply rejected_stamps in Hr as [Hr _]. rewrite Hr in Hd. discriminate.
      - auto. }
    destruct (vevent (by_id lists) card []) as [block|e] eqn:He.
    + destruct Hno. apply vevent_ok_mappable. now rewrite He.
    + destruct (for_cards_raise (by_id lists) (before ++ card :: after) card e)
        with (ics_payload := calendar_header) as [e' ->]; eauto.
      apply in_or_app. right. now left.
  - intros Hbefore.
    assert (Hfirst : forall e, vevent (by_id lists) card [] = Raise e ->
              match for_cards (by_id lists) (before ++ card :: after)
                      calendar_header with
              | Ok ics_payload => Ok (ics_payload ++ ["END:VCALENDAR"])
              | Raise e0 => Raise e0
              end = Raise e)
      by (intros e He; now rewrite (for_cards_first_raise _ _ _ _ e Hbefore Hdue He)).
    split; [|split; [|split; [|split]]].
    + intros Hmiss. now rewrite (Hfirst _ (vevent_missing_list _ _ Hmiss)).
    + intros Hlist Hs Hbad.
      destruct (by_id lists !! c_idList card) as [tlist|] eqn:Hl';
        [|now destruct Hlist].
      apply rejected_stamps in Hbad as [_ Hbad].
      now rewrite (Hfirst _ (vevent_start_raises _ _ _ _ Hl' Hs Hbad)).
    + intros Hlist Hs Hacc Hover.
      destruct (by_id lists !! c_idList card) as [tlist|] eqn:Hl';
        [|now destruct Hlist].
      apply Bool.not_false_is_true in Hacc.
      apply accepted_stamps_raise in Hacc as [_ Hacc].
      assert (Hraise : utc_midnight_stamp (text (c_start card))
                       = Raise OverflowError).
      { apply Hacc, Bool.not_true_is_false, Hover. }
      now rewrite (Hfirst _ (vevent_start_raises _ _ _ _ Hl' Hs Hraise)).
    + intros Hlist Hs Hbad.
      destruct (by_id lists !! c_idList card) as [tlist|] eqn:Hl';
        [|now destruct Hlist].
      apply rejected_stamps in Hbad as [Hbad _].
      rewrite (Hfirst ValueError); [reflexivity|].
      apply (vevent_due_raises _ _ tlist); auto.
      destruct (truthy_opt (c_start card)); auto.
    + intros Hlist Hs Hacc Hover.
      destruct (by_id lists !! c_idList card) as [tlist|] eqn:Hl';
        [|now destruct Hlist].
      apply Bool.not_false_is_true in Hacc.
      apply accepted_stamps_raise in Hacc as [Hacc _].
      rewrite (Hfirst OverflowError); [reflexivity|].
      apply (vevent_due_raises _ _ tlist); auto.
      * destruct (truthy_opt (c_start card)); auto.
      * apply Hacc, Bool.not_true_is_false, Hover.
  - intros e He.
    destruct (for_cards (by_id lists) (before ++ card :: after) calendar_header)
      as [out|e'] eqn:Hf; [discriminate|].
    injection He as ->.
    apply (for_cards_raise_inv _ _ _ _ Hf).
  - now rewrite (for_cards_due_bearing _ (before ++ card :: after)).
Qed.

(** The second card has a due value that is no timestamp and sits on a
    list that was not fetched: the request ends with the [KeyError]. *)
Lemma due_card_failure_aborts_witness :
  (build_ics Sample.secret
     (Sample.board [Sample.ship; Sample.soon_orphan; Sample.stray])
     "s3cret" []).1
  = Raise (KeyError "L9").
Proof.
  destruct (due_card_failure_aborts Sample.secret
              (Sample.board [Sample.ship; Sample.soon_orphan; Sample.stray])
              "s3cret" [] [Sample.work]
              [Sample.ship] Sample.soon_orphan [Sample.stray]
              eq_refl eq_refl eq_refl eq_refl) as (_ & Hfirst & _).
  apply Hfirst.
  - constructor; [|constructor]. intros _. vm_compute. reflexivity.
  - vm_compute. reflexivity.
Defined.

End FailureClaims.

Section FeedOutcomeProperties.

(** X8. With the right key and both upstream answers, the handler
    answers 200 with a [text/calendar] body exactly when every card
    with a due value is mappable: its list was fetched, its start
    value, when present, can be stamped, and its due value can be
    stamped. Cards without due value never matter. *)
Theorem build_ics_succeeds_iff (config : Config) (trello : Upstream)
    (access_key : string) (log : list call)
    (lists : list TList) (cards : list Card) :
  config !! "ICS_KEY" = Some access_key ->
  lists_response trello = Ok lists ->
  cards_response trello = Ok cards ->
  (exists body,
     (build_ics config trello access_key log).1
     = Ok (Response body 200 [("Content-Type", "text/calendar")]))
  <-> Forall (mappable (by_id lists))
        (List.filter (fun card => truthy_opt (c_due card)) cards).
Proof.
  intros Hk Hl Hc.
  rewrite (build_ics_run config trello access_key log lists cards Hk Hl Hc).
  unfold feed_payload, mbind, res_bind. split.
  - intros [body H].
    destruct (for_cards (by_id lists) cards calendar_header) as [out|] eqn:Hf;
      [|discriminate].
    destruct (for_cards_ok _ _ _ _ Hf) as (blocks & Hall & _).
    fold (due_bearing cards). clear - Hall.
    induction Hall as [|card block cs bs Hb _ IH]; constructor; [|exact IH].
    apply vevent_ok_mappable. now rewrite Hb.
  - intros Hall.
    assert (Hok : is_ok (for_cards (by_id lists) cards calendar_header) = true).
    { apply for_cards_returns. eapply Forall_impl; [exact Hall|].
      intros card. apply vevent_ok_mappable. }
    destruct (for_cards _ _ _); [eauto | discriminate].
Qed.

(** Two cards with a due value on the fetched list, one card without. *)
Lemma build_ics_succeeds_iff_witness :
  (exists body,
     (build_ics Sample.secret
        (Sample.board [Sample.ship; Sample.stray; Sample.ship_started])
        "s3cret" []).1
     = Ok (Response body 200 [("Content-Type", "text/calendar")]))
  <-> Forall (mappable (by_id [Sample.work]))
        (List.filter (fun card => truthy_opt (c_due card))
           [Sample.ship; Sample.stray; Sample.ship_started]).
Proof.
  apply (build_ics_succeeds_iff Sample.secret
           (Sample.board [Sample.ship; Sample.stray; Sample.ship_started])
           "s3cret" [] [Sample.work]
           [Sample.ship; Sample.stray; Sample.ship_started]);
    vm_compute; reflexivity.
Defined.

(** X9. With the right key and both upstream answers, the only
    exceptions the handler can raise are the [KeyError] on the list
    identifier of a card with a due value whose list was not fetched,
    the [ValueError] of a rejected timestamp and the [OverflowError] of
    a conversion to UTC that leaves the years 1 to 9999. *)
Theorem build_ics_exceptions (config : Config) (trello : Upstream)
    (access_key : string) (log : list call)
    (lists : list TList) (cards : list Card) (e : exn) :
  config !! "ICS_KEY" = Some access_key ->
  lists_response trello = Ok lists ->
  cards_response trello = Ok cards ->
  (build_ics config trello access_key log).1 = Raise e ->
  (exists card,
     In card cards /\ truthy_opt (c_due card) = true
     /\ by_id lists !! c_idList card = None
     /\ e = KeyError (c_idList card))
  \/ e = ValueError \/ e = OverflowError.
Proof.
  intros Hk Hl Hc.
  rewrite (build_ics_run config trello access_key log lists cards Hk Hl Hc).
  unfold feed_payload, mbind, res_bind.
  destruct (for_cards (by_id lists) cards calendar_header) as [out|e'] eqn:Hf;
    [discriminate|].
  intros [= <-].
  destruct (for_cards_raise_inv _ _ _ _ Hf) as (card & Hin & Hdue & Hb).
  destruct (vevent_raise_inv _ _ _ Hb) as [[Hnone ->]|H]; [left|now right].
  exists card. auto.
Qed.

(** The second card sits on a list that was not fetched. *)
Lemma build_ics_exceptions_witness :
  (exists card,
     In card [Sample.ship; Sample.orphan]
     /\ truthy_opt (c_due card) = true
     /\ by_id [Sample.work] !! c_idList card = None
     /\ KeyError "L9" = KeyError (c_idList card))
  \/ KeyError "L9" = ValueError \/ KeyError "L9" = OverflowError.
Proof.
  apply (build_ics_exceptions Sample.secret
           (Sample.board [Sample.ship; Sample.orphan])
           "s3cret" [] [Sample.work] [Sample.ship; Sample.orphan]
           (KeyError "L9"));
    vm_compute; reflexivity.
Defined.

(** X10. Cards without due value do not influence the answer: two
    boards with the same lists answer whose cards with a due value are
    the same, in the same order, get the same answer and the same
    upstream requests, whatever cards without due value either has. *)
Theorem build_ics_ignores_dueless (config : Config)
    (trello1 trello2 : Upstream) (access_key : string) (log : list call)
    (cards1 cards2 : list Card) :
  lists_response trello1 = lists_response trello2 ->
  cards_response trello1 = Ok cards1 ->
  cards_response trello2 = Ok cards2 ->
  List.filter (fun card => truthy_opt (c_due card)) cards1
  = List.filter (fun card => truthy_opt (c_due card)) cards2 ->
  build_ics config trello1 access_key log
  = build_ics config trello2 access_key log.
Proof.
  intros Hl H1 H2 Hsame. unfold build_ics.
  destruct (bool_decide _); [reflexivity|].
  unfold get_lists_by_id, get_cards, requests_get, lift, mbind, req_bind,
    mret, req_ret, feed_payload, res_bind.
  rewrite Hl, H1, H2. destruct (lists_response trello2); [|reflexivity].
  rewrite (for_cards_due_bearing _ cards1), (for_cards_due_bearing _ cards2).
  unfold due_bearing. now rewrite Hsame.
Qed.

(** The stray card, which has no due value, before and after. *)
Lemma build_ics_ignores_dueless_witness :
  build_ics Sample.secret (Sample.board [Sample.stray; Sample.ship])
    "s3cret" []
  = build_ics Sample.secret
      (Sample.board [Sample.ship; Sample.stray; Sample.stray]) "s3cret" [].
Proof.
  apply (build_ics_ignores_dueless Sample.secret
           (Sample.board [Sample.stray; Sample.ship])
           (Sample.board [Sample.ship; Sample.stray; Sample.stray])
           "s3cret" [] [Sample.stray; Sample.ship]
           [Sample.ship; Sample.stray; Sample.stray]); reflexivity.
Defined.

(** X11. Every produced VEVENT block has nine lines, the first
    [BEGIN:VEVENT] and the last [END:VEVENT]; its one URL line carries
    the card's url, its one UID line the card's id followed by
    [@trello.com], and its one SUMMARY line the card's name followed by
    the name, in brackets, of the list the index holds for the card's
    list identifier. *)
Theorem vevent_block_shape (lists_by_id : gmap string TList) (card : Card)
    (block : list string) :
  vevent lists_by_id card [] = Ok block ->
  List.length block = 9%nat
  /\ head block = Some "BEGIN:VEVENT"
  /\ last block = Some "END:VEVENT"
  /\ field "URL:" block = ["URL:" +:+ c_url card]
  /\ field "UID:" block = ["UID:" +:+ c_id card +:+ "@trello.com"]
  /\ exists tlist,
       lists_by_id !! c_idList card = Some tlist
       /\ field "SUMMARY:" block
          = ["SUMMARY:" +:+ c_name card +:+ " [" +:+ l_name tlist +:+ "]"].
Proof.
  intros H.
  destruct (vevent_ok lists_by_id card block H)
    as (chunks & tlist & _ & Hl & [(_ & sd & dd & _ & _ & ->)
                                  |(_ & dd & _ & ->)]);
    (repeat (split; [reflexivity|])); exists tlist; (split; [exact Hl|]);
    reflexivity.
Qed.

(** The sample card on the fetched list. *)
Lemma vevent_block_shape_witness :
  List.length Sample.ship_block = 9%nat
  /\ head Sample.ship_block = Some "BEGIN:VEVENT"
  /\ last Sample.ship_block = Some "END:VEVENT"
  /\ field "URL:" Sample.ship_block = ["URL:" +:+ c_url Sample.ship]
  /\ field "UID:" Sample.ship_block
     = ["UID:" +:+ c_id Sample.ship +:+ "@trello.com"]
  /\ exists tlist,
       by_id [Sample.work] !! c_idList Sample.ship = Some tlist
       /\ field "SUMMARY:" Sample.ship_block
          = ["SUMMARY:" +:+ c_name Sample.ship +:+ " [" +:+ l_name tlist +:+ "]"].
Proof.
  apply (vevent_block_shape (by_id [Sample.work]) Sample.ship
           Sample.ship_block).
  vm_compute. reflexivity.
Defined.

End FeedOutcomeProperties.

Section FeedBody.

#[local] Arguments String.append !_ _ / : simpl nomatch.

Lemma join_cons (sep p : string) (ps : list string) :
  ps <> [] -> join sep (p :: ps) = p +:+ sep +:+ join sep ps.
Proof. now destruct ps. Qed.

(** Joining lines and a last line with newlines ends every line but the
    last by a newline. *)
Lemma join_lines (lines : list string) (p : string) :
  join LF (lines ++ [p]) = lines_text lines +:+ p.
Proof.
  induction lines as [|line lines IH]; [reflexivity|].
  change ((line :: lines) ++ [p]) with (line :: (lines ++ [p])).
  rewrite join_cons by (now destruct lines). rewrite IH.
  cbn [lines_text]. now rewrite !append_assoc.
Qed.

Lemma lines_text_app (a b : list string) :
  lines_text (a ++ b) = lines_text a +:+ lines_text b.
Proof.
  induction a as [|line a IH]; [reflexivity|].
  cbn [app lines_text]. rewrite IH. now rewrite !append_assoc.
Qed.

(** X12. With the right key and both upstream answers, an answer of the
    handler is always a 200 with the one header [Content-Type:
    text/calendar]; its body is the four calendar header lines, then the
    lines of the blocks [vevent] builds for the cards with a due value,
    in the order of the cards, and then [END:VCALENDAR]; every line but
    this last one is ended by a newline. *)
Theorem build_ics_body_envelope (config : Config) (trello : Upstream)
    (access_key : string) (log : list call)
    (lists : list TList) (cards : list Card) (answer : response) :
  config !! "ICS_KEY" = Some access_key ->
  lists_response trello = Ok lists ->
  cards_response trello = Ok cards ->
  (build_ics config trello access_key log).1 = Ok answer ->
  exists blocks,
    Forall2 (fun card block => vevent (by_id lists) card [] = Ok block)
      (List.filter (fun card => truthy_opt (c_due card)) cards) blocks
    /\ answer
       = Response
           ("BEGIN:VCALENDAR" +:+ LF
              +:+ "VERSION:2.0" +:+ LF
              +:+ "PRODID:-//Infra Bits//Trello -> ICS Shimmy//EN" +:+ LF
              +:+ "REFRESH-INTERVAL:PT5M" +:+ LF
              +:+ lines_text (List.concat blocks) +:+ "END:VCALENDAR")
           200 [("Content-Type", "text/calendar")].
Proof.
  intros Hk Hl Hc.
  rewrite (build_ics_run config trello access_key log lists cards Hk Hl Hc).
  unfold feed_payload, mbind, res_bind.
  destruct (for_cards (by_id lists) cards calendar_header) as [out|] eqn:Hf;
    [|discriminate].
  intros [= <-].
  destruct (for_cards_ok _ _ _ _ Hf) as (blocks & Hall & ->).
  exists blocks. split; [exact Hall|].
  f_equal. rewrite join_lines, lines_text_app.
  unfold calendar_header. cbn [lines_text].
  now rewrite !append_assoc.
Qed.

(** A card without due value and two cards with one. *)
Lemma build_ics_body_envelope_witness :
  exists blocks,
    Forall2 (fun card block => vevent (by_id [Sample.work]) card [] = Ok block)
      (List.filter (fun card => truthy_opt (c_due card))
         [Sample.stray; Sample.ship; Sample.overnight]) blocks
    /\ Response
         (join LF (calendar_header ++ Sample.ship_block
                     ++ Sample.overnight_block ++ ["END:VCALENDAR"]))
         200 [("Content-Type", "text/calendar")]
       = Response
           ("BEGIN:VCALENDAR" +:+ LF
              +:+ "VERSION:2.0" +:+ LF
              +:+ "PRODID:-//Infra Bits//Trello -> ICS Shimmy//EN" +:+ LF
              +:+ "REFRESH-INTERVAL:PT5M" +:+ LF
              +:+ lines_text (List.concat blocks) +:+ "END:VCALENDAR")
           200 [("Content-Type", "text/calendar")].
Proof.
  apply (build_ics_body_envelope Sample.secret
           (Sample.board [Sample.stray; Sample.ship; Sample.overnight])
           "s3cret" [] [Sample.work]
           [Sample.stray; Sample.ship; Sample.overnight]);
    vm_compute; reflexivity.
Defined.

End FeedBody.

(** * Further properties of the authorization handler *)

Section Authorization.

#[local] Arguments String.append !_ _ / : simpl nomatch.

Lemma all_chars_app (p : ascii -> bool) (a b : string) :
  all_chars p (a +:+ b) = all_chars p a && all_chars p b.
Proof.
  induction a as [|c a IH]; simpl; [reflexivity|].
  now rewrite IH, andb_assoc.
Qed.

Lemma count_char_app (c : ascii) (a b : string) :
  count_char c (a +:+ b) = (count_char c a + count_char c b)%nat.
Proof. induction a as [|c' a IH]; simpl; [reflexivity | rewrite IH; lia]. Qed.

Lemma count_char_absent (p : ascii -> bool) (c : ascii) (s : string) :
  p c = false -> all_chars p s = true -> count_char c s = 0%nat.
Proof.
  intros Hc. induction s as [|c' s IH]; simpl; [reflexivity|].
  intros H. apply andb_prop in H as [Hc' Hs].
  destruct (Ascii.eqb_spec c c') as [->|_]; [congruence | now apply IH].
Qed.

Lemma quote_char_alphabet (c : ascii) :
  all_chars quoted_char (quote_char c) = true.
Proof.
  destruct c as [[] [] [] [] [] [] [] []]; vm_compute; reflexivity.
Qed.

(** X13. [quote_plus] writes unreserved characters, [+] and percent
    escapes only: whatever the input, its output consists of letters,
    digits, [_ . - ~ + %], so it holds no [&], [=], [#], [/], [?] and
    no blank. *)
Theorem quote_plus_alphabet (s : string) :
  all_chars quoted_char (quote_plus s) = true
  /\ count_char "&" (quote_plus s) = 0%nat
  /\ count_char "=" (quote_plus s) = 0%nat
  /\ count_char "#" (quote_plus s) = 0%nat
  /\ count_char "/" (quote_plus s) = 0%nat
  /\ count_char "?" (quote_plus s) = 0%nat
  /\ count_char " " (quote_plus s) = 0%nat.
Proof.
  assert (H : all_chars quoted_char (quote_plus s) = true).
  { induction s as [|c s IH]; [reflexivity|]. cbn [quote_plus].
    now rewrite all_chars_app, quote_char_alphabet, IH. }
  repeat split; try exact H;
    now apply (count_char_absent quoted_char).
Qed.

Lemma quote_plus_no_separator (s : string) :
  count_char "&" (quote_plus s) = 0%nat
  /\ count_char "=" (quote_plus s) = 0%nat.
Proof.
  assert (H : all_chars quoted_char (quote_plus s) = true).
  { induction s as [|c s IH]; [reflexivity|]. cbn [quote_plus].
    now rewrite all_chars_app, quote_char_alphabet, IH. }
  split; now apply (count_char_absent quoted_char).
Qed.

Lemma authorize_location (client : option string) (request : Request)
    (access_key : string) :
  truthy_opt client = false ->
  "https://api.trello.com/1/authorize?"
    +:+ urlencode
          [("key", client);
           ("return_url",
            Some ("http" +:+ (if is_secure request then "s" else "") +:+ "://"
                    +:+ host request +:+ "/a/" +:+ access_key +:+ "/token"));
           ("callback_method", Some "fragment");
           ("response_type", Some "token");
           ("scope", Some "read");
           ("expiration", Some "never");
           ("name", Some "Trello -> ICS Shimmy")]
  = authorize_url (str_opt client) request access_key.
Proof.
  destruct client as [[|c k]|]; [|discriminate|]; intros _;
    vm_compute; reflexivity.
Qed.

(** X14. The handler redirects exactly when the path key is the
    configured secret and neither an access token nor a client key is
    configured (each absent or empty). The redirect is then a 302 to
    the authorize address whose [key] parameter is the text [None]
    (no client key) or empty (empty client key), never a configured
    key, and whose [return_url] is the escaped callback address. *)
Theorem get_auth_token_redirects_iff (config : Config) (request : Request)
    (access_key : string) (location : string) (code : Z) :
  get_auth_token config request access_key = Redirect location code
  <-> config !! "ICS_KEY" = Some access_key
      /\ truthy_opt (config !! "TRELLO_ACCESS_TOKEN") = false
      /\ code = 302
      /\ ((config !! "TRELLO_ACCESS_KEY" = None
           /\ location = authorize_url "None" request access_key)
          \/ (config !! "TRELLO_ACCESS_KEY" = Some ""
              /\ location = authorize_url "" request access_key)).
Proof.
  unfold get_auth_token.
  destruct (bool_decide_reflect (Some access_key <> config !! "ICS_KEY"))
    as [Hk|Hk].
  { split; [discriminate | intros (E & _); now rewrite E in Hk]. }
  assert (Hkey : config !! "ICS_KEY" = Some access_key).
  { destruct (decide (Some access_key = config !! "ICS_KEY")); [done|].
    now destruct Hk. }
  destruct (truthy_opt (config !! "TRELLO_ACCESS_TOKEN")).
  { split; [discriminate | now intros (_ & ? & _)]. }
  destruct (config !! "TRELLO_ACCESS_KEY") as [[|c k]|] eqn:Hclient;
    cbn [truthy_opt truthy].
  - rewrite (authorize_location (Some "")) by reflexivity. cbn [str_opt]. split.
    + intros [= <- <-]. split; [exact Hkey|]. do 2 (split; [reflexivity|]).
      right. split; reflexivity.
    + intros (_ & _ & -> & [[? _]|[_ ->]]); [discriminate | reflexivity].
  - split; [discriminate|].
    intros (_ & _ & _ & [[? _]|[? _]]); discriminate.
  - rewrite (authorize_location None) by reflexivity. cbn [str_opt]. split.
    + intros [= <- <-]. split; [exact Hkey|]. do 2 (split; [reflexivity|]).
      left. split; reflexivity.
    + intros (_ & _ & -> & [[_ ->]|[? _]]); [reflexivity | discriminate].
Qed.

(** X15. The location of a redirect always has the seven parameters of
    the handler and no more: whatever the host and the path key
    contain, it holds exactly six [&] and seven [=]. *)
Theorem get_auth_token_query_shape (config : Config) (request : Request)
    (access_key : string) (location : string) (code : Z) :
  get_auth_token config request access_key = Redirect location code ->
  count_char "&" location = 6%nat /\ count_char "=" location = 7%nat.
Proof.
  unfold get_auth_token.
  destruct (bool_decide _); [discriminate|].
  destruct (truthy_opt (config !! "TRELLO_ACCESS_TOKEN")); [discriminate|].
  destruct (truthy_opt (config !! "TRELLO_ACCESS_KEY")) eqn:Hclient;
    [discriminate|].
  rewrite (authorize_location _ request access_key Hclient).
  intros [= <- <-]. unfold authorize_url.
  assert (Hc : count_char "&" (str_opt (config !! "TRELLO_ACCESS_KEY")) = 0%nat
               /\ count_char "=" (str_opt (config !! "TRELLO_ACCESS_KEY")) = 0%nat)
    by (destruct (config !! "TRELLO_ACCESS_KEY") as [[|]|];
        try discriminate; split; reflexivity).
  destruct Hc as [Hc1 Hc2].
  destruct (quote_plus_no_separator (callback_url request access_key))
    as [Hq1 Hq2].
  rewrite !count_char_app, Hc1, Hc2, Hq1, Hq2. split; reflexivity.
Qed.

(** No token and no client key are configured. *)
Lemma get_auth_token_query_shape_witness :
  count_char "&" (authorize_url "None" Sample.plain_request "s3cret") = 6%nat
  /\ count_char "=" (authorize_url "None" Sample.plain_request "s3cret") = 7%nat.
Proof.
  apply (get_auth_token_query_shape Sample.secret Sample.plain_request
           "s3cret" _ 302).
  vm_compute. reflexivity.
Defined.

End Authorization.

(** * The proleptic Gregorian calendar of [datetime] *)

Section Calendar.

Lemma in_zrange (n : nat) (x : Z) : 0 <= x < Z.of_nat n -> In x (zrange n).
Proof.
  intros H. unfold zrange. apply in_map_iff. exists (Z.to_nat x).
  split; [lia|]. apply in_seq. lia.
Qed.

Lemma forallb_zrange (n : nat) (p : Z -> bool) :
  forallb p (zrange n) = true ->
  forall x, 0 <= x < Z.of_nat n -> p x = true.
Proof.
  intros H x Hx. rewrite forallb_forall in H. now apply H, in_zrange.
Qed.

Lemma days_before_year_shift (y k : Z) :
  days_before_year (y + 400 * k) = days_before_year y + 146097 * k.
Proof.
  unfold days_before_year.
  replace (y + 400 * k - 1) with (y - 1 + k * 400) at 4 by lia.
  replace (y + 400 * k - 1) with (y - 1 + (4 * k) * 100) at 3 by lia.
  replace (y + 400 * k - 1) with (y - 1 + (100 * k) * 4) at 2 by lia.
  rewrite !Z.div_add by lia. lia.
Qed.

Lemma is_leap_shift (y k : Z) : is_leap (y + 400 * k) = is_leap y.
Proof.
  unfold is_leap.
  replace (y + 400 * k) with (y + k * 400) at 3 by lia.
  replace (y + 400 * k) with (y + (4 * k) * 100) at 2 by lia.
  replace (y + 400 * k) with (y + (100 * k) * 4) at 1 by lia.
  now rewrite !Z_mod_plus_full.
Qed.

Lemma cycle_years :
  forallb (fun n100 =>
    forallb (fun n4 =>
      forallb (fun n1 =>
        (days_before_year (year_of 0 n100 n4 n1)
           =? 36524 * n100 + 1461 * n4 + 365 * n1)
        && Bool.eqb (is_leap (year_of 0 n100 n4 n1)) (leap_of n100 n4 n1))
        (zrange 4)) (zrange 25)) (zrange 4) = true.
Proof. vm_compute. reflexivity. Qed.

(** The days before a year and its leap rule, from its count of cycles. *)
Lemma year_of_facts (n400 n100 n4 n1 : Z) :
  0 <= n100 <= 3 -> 0 <= n4 <= 24 -> 0 <= n1 <= 3 ->
  days_before_year (year_of n400 n100 n4 n1)
    = 146097 * n400 + 36524 * n100 + 1461 * n4 + 365 * n1
  /\ is_leap (year_of n400 n100 n4 n1) = leap_of n100 n4 n1.
Proof.
  intros H100 H4 H1.
  replace (year_of n400 n100 n4 n1) with (year_of 0 n100 n4 n1 + 400 * n400)
    by (unfold year_of; lia).
  rewrite days_before_year_shift, is_leap_shift.
  pose proof (forallb_zrange 4 _ cycle_years n100 ltac:(lia)) as C.
  cbv beta in C.
  pose proof (forallb_zrange 25 _ C n4 ltac:(lia)) as C'. cbv beta in C'.
  pose proof (forallb_zrange 4 _ C' n1 ltac:(lia)) as C''. cbv beta in C''.
  apply andb_prop in C'' as [Hd Hl].
  apply Z.eqb_eq in Hd. apply Bool.eqb_prop in Hl. split; [lia | exact Hl].
Qed.


Lemma days_of_year_checked :
  forallb (fun leapyear : bool =>
    forallb (fun n =>
      (365 + (if leapyear then 1 else 0) <=? n)
      || (let md := month_day leapyear n in
          (1 <=? md.1) && (md.1 <=? 12)
          && (1 <=? md.2) && (md.2 <=? dim_of leapyear md.1)
          && (dbm_of leapyear md.1 + md.2 =? n + 1)))
      (zrange 366)) [true; false] = true.
Proof. vm_compute. reflexivity. Qed.

Lemma dates_of_year_checked :
  forallb (fun leapyear : bool =>
    forallb (fun m =>
      forallb (fun d =>
        (m <? 1) || (d <? 1) || (dim_of leapyear m <? d)
        || (let md := month_day leapyear (dbm_of leapyear m + d - 1) in
            (md.1 =? m) && (md.2 =? d)
            && (dbm_of leapyear m + d <=? 365 + (if leapyear then 1 else 0))))
        (zrange 32)) (zrange 13)) [true; false] = true.
Proof. vm_compute. reflexivity. Qed.

Lemma month_tables (m : Z) :
  1 <= m <= 12 ->
  28 <= table DAYS_IN_MONTH m <= 31 /\ 0 <= table DAYS_BEFORE_MONTH m <= 334.
Proof.
  intros Hm.
  assert (C : forallb (fun m => (m <? 1)
                || ((28 <=? table DAYS_IN_MONTH m)
                    && (table DAYS_IN_MONTH m <=? 31)
                    && (0 <=? table DAYS_BEFORE_MONTH m)
                    && (table DAYS_BEFORE_MONTH m <=? 334))) (zrange 13) = true)
    by (vm_compute; reflexivity).
  pose proof (forallb_zrange 13 _ C m ltac:(lia)) as Cm. cbv beta in Cm.
  apply orb_prop in Cm as [Cm|Cm]; lia.
Qed.

(** The month and day read off a day of the year are that day. *)
Lemma month_day_spec (leapyear : bool) (n : Z) :
  0 <= n < 365 + (if leapyear then 1 else 0) ->
  1 <= (month_day leapyear n).1 <= 12
  /\ 1 <= (month_day leapyear n).2 <= dim_of leapyear (month_day leapyear n).1
  /\ dbm_of leapyear (month_day leapyear n).1 + (month_day leapyear n).2 = n + 1.
Proof.
  intros Hn. pose proof days_of_year_checked as C.
  rewrite forallb_forall in C.
  assert (Hin : In leapyear [true; false]) by (destruct leapyear; cbn; auto).
  specialize (C leapyear Hin).
  pose proof (forallb_zrange 366 _ C n ltac:(destruct leapyear; lia)) as Cn.
  cbv beta zeta in Cn. apply orb_prop in Cn as [Cn|Cn]; [lia|].
  destruct (month_day leapyear n) as [m d]. cbn [fst snd] in *. lia.
Qed.

(** Reading the day of the year of a date gives the date back. *)
Lemma month_day_of_date (leapyear : bool) (m d : Z) :
  1 <= m <= 12 -> 1 <= d <= dim_of leapyear m ->
  month_day leapyear (dbm_of leapyear m + d - 1) = (m, d)
  /\ 1 <= dbm_of leapyear m + d <= 365 + (if leapyear then 1 else 0).
Proof.
  intros Hm Hd. pose proof dates_of_year_checked as C.
  rewrite forallb_forall in C.
  assert (Hin : In leapyear [true; false]) by (destruct leapyear; cbn; auto).
  specialize (C leapyear Hin).
  destruct (month_tables m Hm) as [Hdim Hdbm].
  assert (d <= 31)
    by (revert Hd; unfold dim_of; destruct ((m =? 2) && leapyear); lia).
  pose proof (forallb_zrange 13 _ C m ltac:(lia)) as Cm. cbv beta in Cm.
  pose proof (forallb_zrange 32 _ Cm d ltac:(lia)) as Cd. cbv beta zeta in Cd.
  repeat (apply orb_prop in Cd as [Cd|Cd]; [lia|]).
  assert (0 <= dbm_of leapyear m)
    by (unfold dbm_of; destruct ((2 <? m) && leapyear); lia).
  destruct (month_day leapyear _) as [m' d']. cbn [fst snd] in *.
  split; [f_equal; lia | lia].
Qed.

Lemma days_in_month_leap (y m : Z) :
  days_in_month y m = dim_of (is_leap y) m.
Proof. reflexivity. Qed.

Lemma days_before_month_leap (y m : Z) :
  days_before_month y m = dbm_of (is_leap y) m.
Proof. reflexivity. Qed.

(** [_ord2ymd], with its cycle counts named. *)
Lemma ord2ymd_unfold (n : Z) :
  ord2ymd n =
  let n400 := (n - 1) / 146097 in
  let r400 := (n - 1) mod 146097 in
  let n100 := r400 / 36524 in
  let r100 := r400 mod 36524 in
  let n4 := r100 / 1461 in
  let r4 := r100 mod 1461 in
  let n1 := r4 / 365 in
  let r1 := r4 mod 365 in
  if (n1 =? 4) || (n100 =? 4) then (year_of n400 n100 n4 n1 - 1, 12, 31)
  else (year_of n400 n100 n4 n1,
        (month_day (leap_of n100 n4 n1) r1).1,
        (month_day (leap_of n100 n4 n1) r1).2).
Proof.
  unfold ord2ymd, month_day, leap_of, year_of, DI400Y, DI100Y, DI4Y.
  cbv zeta.
  destruct (_ || _); [f_equal; f_equal; lia|].
  destruct (_ <? _); cbn [fst snd]; f_equal; f_equal; lia.
Qed.

Lemma divmod_of (k q r n : Z) :
  n = k * q + r -> 0 <= r < k -> n / k = q /\ n mod k = r.
Proof.
  intros -> Hr. split.
  - symmetry. apply (Z.div_unique _ _ q r); [left; lia | reflexivity].
  - symmetry. apply (Z.mod_unique _ _ q r); [left; lia | reflexivity].
Qed.


(** The cycle counts of an ordinal. *)
Lemma ordinal_cycles (n : Z) :
  let n400 := (n - 1) / 146097 in
  let r400 := (n - 1) mod 146097 in
  let n100 := r400 / 36524 in
  let r100 := r400 mod 36524 in
  let n4 := r100 / 1461 in
  let r4 := r100 mod 1461 in
  let n1 := r4 / 365 in
  let r1 := r4 mod 365 in
  n - 1 = 146097 * n400 + 36524 * n100 + 1461 * n4 + 365 * n1 + r1
  /\ 0 <= n100 <= 4 /\ 0 <= n4 <= 24 /\ 0 <= n1 <= 4 /\ 0 <= r1 < 365
  /\ (n100 = 4 -> n4 = 0 /\ n1 = 0 /\ r1 = 0)
  /\ (n1 = 4 -> r1 = 0 /\ n4 <> 24).
Proof.
  cbv zeta.
  pose proof (Z.div_mod (n - 1) 146097 ltac:(lia)).
  pose proof (Z.mod_pos_bound (n - 1) 146097 ltac:(lia)).
  set (r400 := (n - 1) mod 146097) in *.
  pose proof (Z.div_mod r400 36524 ltac:(lia)).
  pose proof (Z.mod_pos_bound r400 36524 ltac:(lia)).
  set (r100 := r400 mod 36524) in *.
  pose proof (Z.div_mod r100 1461 ltac:(lia)).
  pose proof (Z.mod_pos_bound r100 1461 ltac:(lia)).
  set (r4 := r100 mod 1461) in *.
  pose proof (Z.div_mod r4 365 ltac:(lia)).
  pose proof (Z.mod_pos_bound r4 365 ltac:(lia)).
  set (r1 := r4 mod 365) in *.
  set (n400 := (n - 1) / 146097) in *.
  set (n100 := r400 / 36524) in *.
  set (n4 := r100 / 1461) in *.
  set (n1 := r4 / 365) in *.
  lia.
Qed.

(** What [_ord2ymd] returns is a date of the calendar, and its ordinal
    is the one it was read from. *)
Lemma ord2ymd_spec (n : Z) :
  let '(y, m, d) := ord2ymd n in
  1 <= m <= 12 /\ 1 <= d <= days_in_month y m /\ ymd2ord y m d = n
  /\ (1 <= n <= MAXORDINAL -> MINYEAR <= y <= MAXYEAR).
Proof.
  rewrite ord2ymd_unfold. pose proof (ordinal_cycles n) as H. cbv zeta in *.
  set (n400 := (n - 1) / 146097) in *.
  set (n100 := ((n - 1) mod 146097) / 36524) in *.
  set (n4 := (((n - 1) mod 146097) mod 36524) / 1461) in *.
  set (n1 := ((((n - 1) mod 146097) mod 36524) mod 1461) / 365) in *.
  set (r1 := ((((n - 1) mod 146097) mod 36524) mod 1461) mod 365) in *.
  destruct H as (Hn & H100 & H4 & H1 & Hr & Hedge100 & Hedge1).
  unfold MINYEAR, MAXYEAR, MAXORDINAL.
  destruct (Z.eqb_spec n1 4) as [E1|E1]; cbn [orb].
  - (* the last day of a leap year that ends a 4-year cycle *)
    destruct (Hedge1 E1) as [Hr0 H24].
    assert (n100 <= 3) by (destruct (Z.eq_dec n100 4) as [E|E];
                           [destruct (Hedge100 E); lia | lia]).
    replace (year_of n400 n100 n4 n1 - 1) with (year_of n400 n100 n4 3)
      by (unfold year_of; lia).
    destruct (year_of_facts n400 n100 n4 3) as [Hd Hl]; try lia.
    assert (Hleap : leap_of n100 n4 3 = true)
      by (unfold leap_of; destruct (Z.eqb_spec n4 24); [lia | reflexivity]).
    unfold ymd2ord.
    rewrite days_in_month_leap, days_before_month_leap, Hd, Hl, Hleap.
    change (dim_of true 12) with 31. change (dbm_of true 12) with 335.
    unfold year_of. lia.
  - destruct (Z.eqb_spec n100 4) as [E100|E100].
    + (* the last day of a 400-year cycle *)
      destruct (Hedge100 E100) as (E4 & E1' & Er).
      replace (year_of n400 n100 n4 n1 - 1) with (year_of n400 3 24 3)
        by (unfold year_of; lia).
      destruct (year_of_facts n400 3 24 3) as [Hd Hl]; try lia.
      unfold ymd2ord. rewrite days_in_month_leap, days_before_month_leap, Hd, Hl.
      change (leap_of 3 24 3) with true.
      change (dim_of true 12) with 31. change (dbm_of true 12) with 335.
      unfold year_of. lia.
    + destruct (year_of_facts n400 n100 n4 n1) as [Hd Hl]; try lia.
      pose proof (month_day_spec (leap_of n100 n4 n1) r1
                    ltac:(destruct (leap_of n100 n4 n1); lia))
        as (Hm & Hday & Hsum).
      unfold ymd2ord.
      rewrite days_in_month_leap, days_before_month_leap, Hd, Hl.
      unfold year_of. repeat split; lia.
Qed.

(** The ordinal of a date of the calendar is read back as that date. *)
Lemma ord2ymd_ymd2ord (y m d : Z) :
  1 <= m <= 12 -> 1 <= d <= days_in_month y m ->
  ord2ymd (ymd2ord y m d) = (y, m, d).
Proof.
  intros Hm Hd.
  (* the cycle counts of the year *)
  pose proof (Z.div_mod (y - 1) 400 ltac:(lia)) as E400.
  pose proof (Z.mod_pos_bound (y - 1) 400 ltac:(lia)) as B400.
  set (a := (y - 1) / 400) in *. set (ra := (y - 1) mod 400) in *.
  pose proof (Z.div_mod ra 100 ltac:(lia)) as E100.
  pose proof (Z.mod_pos_bound ra 100 ltac:(lia)) as B100.
  set (b := ra / 100) in *. set (rb := ra mod 100) in *.
  pose proof (Z.div_mod rb 4 ltac:(lia)) as E4.
  pose proof (Z.mod_pos_bound rb 4 ltac:(lia)) as B4.
  set (c := rb / 4) in *. set (e := rb mod 4) in *.
  assert (Hy : y = year_of a b c e) by (unfold year_of; lia).
  assert (Hb : 0 <= b <= 3) by lia.
  assert (Hc : 0 <= c <= 24) by lia.
  destruct (year_of_facts a b c e Hb Hc ltac:(lia)) as [Hdby Hleap].
  rewrite <- Hy in Hdby, Hleap.
  rewrite days_in_month_leap, Hleap in Hd.
  destruct (month_day_of_date (leap_of b c e) m d Hm Hd) as [Hmd Hyd].
  set (yd := dbm_of (leap_of b c e) m + d - 1) in *.
  assert (Hord : ymd2ord y m d - 1
                 = 146097 * a + 36524 * b + 1461 * c + 365 * e + yd).
  { unfold ymd2ord. rewrite days_before_month_leap, Hdby, Hleap.
    subst yd. lia. }
  rewrite ord2ymd_unfold. cbv zeta. rewrite Hord.
  destruct (Z.eq_dec yd 365) as [Eyd|Eyd].
  - (* the last day of a leap year *)
    assert (Hl : leap_of b c e = true)
      by (destruct (leap_of b c e); [reflexivity | lia]).
    rewrite Hl, Eyd in Hmd. change (month_day true 365) with (12, 31) in Hmd.
    injection Hmd as <- <-.
    unfold leap_of in Hl. apply andb_prop in Hl as [He Hcb].
    apply Z.eqb_eq in He.
    destruct (Z.eqb_spec c 24) as [Ec|Ec].
    + destruct (Z.eqb_spec b 3) as [Eb|?]; [|discriminate].
      destruct (divmod_of 146097 a 146096 (146097 * a + 36524 * b + 1461 * c + 365 * e + yd))
        as [-> ->]; [lia | lia |].
      change (146096 / 36524) with 4. change (146096 mod 36524) with 0.
      change (0 mod 1461) with 0. change (0 / 1461) with 0.
      change (0 / 365) with 0. rewrite orb_true_r.
      f_equal. f_equal. unfold year_of. lia.
    + destruct (divmod_of 146097 a (36524 * b + 1461 * c + 1460)
                  (146097 * a + 36524 * b + 1461 * c + 365 * e + yd))
        as [-> ->]; [lia | lia |].
      destruct (divmod_of 36524 b (1461 * c + 1460) (36524 * b + 1461 * c + 1460))
        as [-> ->]; [lia | lia |].
      destruct (divmod_of 1461 c 1460 (1461 * c + 1460)) as [-> ->]; [lia | lia |].
      change (1460 / 365) with 4. change (4 =? 4) with true. cbn [orb].
      f_equal. f_equal. unfold year_of. lia.
  - destruct (divmod_of 146097 a (36524 * b + 1461 * c + 365 * e + yd)
                (146097 * a + 36524 * b + 1461 * c + 365 * e + yd))
      as [-> ->]; [lia | destruct (leap_of b c e); lia |].
    destruct (divmod_of 36524 b (1461 * c + 365 * e + yd)
                (36524 * b + 1461 * c + 365 * e + yd))
      as [-> ->]; [lia | destruct (leap_of b c e); lia |].
    destruct (divmod_of 1461 c (365 * e + yd) (1461 * c + 365 * e + yd))
      as [-> ->]; [lia | destruct (leap_of b c e); lia |].
    destruct (divmod_of 365 e yd (365 * e + yd))
      as [-> ->]; [lia | destruct (leap_of b c e); lia |].
    destruct (Z.eqb_spec e 4) as [?|_]; [lia|].
    destruct (Z.eqb_spec b 4) as [?|_]; [lia|].
    cbn [orb]. rewrite Hmd. cbn [fst snd]. now rewrite <- Hy.
Qed.

End Calendar.

Section Instants.

Lemma add_timedelta_of_instant (self : datetime) (delta : Z) :
  add_timedelta self delta
  = match of_instant (local_us self + delta) with
    | Ok r => Ok (replace_tzinfo r (utcoffset self))
    | Raise e => Raise e
    end.
Proof.
  unfold add_timedelta, of_instant, local_us. cbv zeta.
  destruct (_ && _); [|reflexivity].
  now destruct (ord2ymd _) as [[y m] d].
Qed.

(** The ordinal of a date of the years 1 to 9999. *)
Lemma ymd2ord_bounds (y m d : Z) :
  MINYEAR <= y <= MAXYEAR -> 1 <= m <= 12 -> 1 <= d <= days_in_month y m ->
  1 <= ymd2ord y m d <= MAXORDINAL
  /\ (2 <= y -> 366 <= ymd2ord y m d)
  /\ (y <= 9998 -> ymd2ord y m d <= MAXORDINAL - 365).
Proof.
  unfold MINYEAR, MAXYEAR, MAXORDINAL. intros Hy Hm Hd.
  pose proof (Z.div_mod (y - 1) 400 ltac:(lia)) as E400.
  pose proof (Z.mod_pos_bound (y - 1) 400 ltac:(lia)) as B400.
  set (a := (y - 1) / 400) in *. set (ra := (y - 1) mod 400) in *.
  pose proof (Z.div_mod ra 100 ltac:(lia)) as E100.
  pose proof (Z.mod_pos_bound ra 100 ltac:(lia)) as B100.
  set (b := ra / 100) in *. set (rb := ra mod 100) in *.
  pose proof (Z.div_mod rb 4 ltac:(lia)) as E4.
  pose proof (Z.mod_pos_bound rb 4 ltac:(lia)) as B4.
  set (c := rb / 4) in *. set (e := rb mod 4) in *.
  assert (Hyear : y = year_of a b c e) by (unfold year_of; lia).
  destruct (year_of_facts a b c e ltac:(lia) ltac:(lia) ltac:(lia))
    as [Hdby Hleap].
  rewrite <- Hyear in Hdby, Hleap.
  rewrite days_in_month_leap, Hleap in Hd.
  destruct (month_day_of_date (leap_of b c e) m d Hm Hd) as [_ Hyd].
  unfold ymd2ord. rewrite days_before_month_leap, Hdby, Hleap.
  assert (Hl : leap_of b c e = true -> e = 3)
    by (unfold leap_of; destruct (Z.eqb_spec e 3); [auto | discriminate]).
  destruct (leap_of b c e); [specialize (Hl eq_refl)|]; lia.
Qed.

Lemma time_of_day_split (t : Z) :
  let seconds := (t mod 86400000000) / 1000000 in
  0 <= seconds / 3600 <= 23
  /\ 0 <= seconds mod 3600 / 60 <= 59
  /\ 0 <= seconds mod 3600 mod 60 <= 59
  /\ 0 <= t mod 1000000 <= 999999
  /\ t = (t / 86400000000 * 86400 + seconds / 3600 * 3600
          + seconds mod 3600 / 60 * 60 + seconds mod 3600 mod 60) * 1000000
         + t mod 1000000.
Proof.
  cbv zeta.
  pose proof (Z.div_mod t 86400000000 ltac:(lia)).
  pose proof (Z.mod_pos_bound t 86400000000 ltac:(lia)).
  set (r := t mod 86400000000) in *.
  pose proof (Z.div_mod r 1000000 ltac:(lia)).
  pose proof (Z.mod_pos_bound r 1000000 ltac:(lia)).
  assert (Hus : t mod 1000000 = r mod 1000000).
  { apply (divmod_of 1000000 (t / 86400000000 * 86400 + r / 1000000)); lia. }
  rewrite Hus.
  set (s := r / 1000000) in *. set (us := r mod 1000000) in *.
  pose proof (Z.div_mod s 3600 ltac:(lia)).
  pose proof (Z.mod_pos_bound s 3600 ltac:(lia)).
  set (h := s / 3600) in *. set (rs := s mod 3600) in *.
  pose proof (Z.div_mod rs 60 ltac:(lia)).
  pose proof (Z.mod_pos_bound rs 60 ltac:(lia)).
  set (mi := rs / 60) in *. set (se := rs mod 60) in *.
  set (days := t / 86400000000) in *.
  lia.
Qed.

(** The [datetime] of an instant is valid, in UTC, and its wall clock is
    the instant. *)
Lemma of_instant_spec (t : Z) (r : datetime) :
  of_instant t = Ok r -> valid r /\ utcoffset r = 0 /\ local_us r = t.
Proof.
  unfold of_instant. cbv zeta.
  destruct (Z.ltb_spec 0 (t / 86400000000)) as [Hlo|?]; [|discriminate].
  destruct (Z.leb_spec (t / 86400000000) MAXORDINAL) as [Hhi|?];
    [|discriminate].
  cbn [andb]. pose proof (ord2ymd_spec (t / 86400000000)) as Hord.
  destruct (ord2ymd _) as [[y m] d]. intros [= <-].
  destruct Hord as (Hm & Hd & Hback & Hyear).
  destruct (time_of_day_split t) as (Hh & Hmi & Hs & Hus & Ht).
  unfold valid, local_us, toordinal.
  cbn [year month day hour minute second microsecond utcoffset].
  rewrite Hback. repeat split; try lia.
Qed.

(** A valid [datetime] is the one of its own wall clock. *)
Lemma of_instant_local (d : datetime) :
  valid d -> of_instant (local_us d) = Ok (replace_tzinfo d 0).
Proof.
  intros (Hy & Hm & Hd & Hh & Hmi & Hs & Hus).
  destruct (ymd2ord_bounds _ _ _ Hy Hm Hd) as [Hord _].
  unfold of_instant, local_us, toordinal in *. cbv zeta.
  set (n := ymd2ord (year d) (month d) (day d)) in *.
  set (tod := hour d * 3600 + minute d * 60 + second d).
  destruct (divmod_of 86400000000 n (tod * 1000000 + microsecond d)
              ((n * 86400 + hour d * 3600 + minute d * 60 + second d) * 1000000
               + microsecond d)) as [-> ->]; [subst tod; lia | subst tod; lia |].
  destruct (divmod_of 1000000 tod (microsecond d)
              (tod * 1000000 + microsecond d)) as [-> _]; [lia | lia |].
  destruct (divmod_of 1000000
              ((n * 86400 + tod) * 1000000 / 1000000) (microsecond d)
              ((n * 86400 + hour d * 3600 + minute d * 60 + second d) * 1000000
               + microsecond d)) as [_ ->];
    [rewrite Z.div_mul by lia; subst tod; lia | lia |].
  destruct (divmod_of 3600 (hour d) (minute d * 60 + second d) tod)
    as [-> ->]; [subst tod; lia | lia |].
  destruct (divmod_of 60 (minute d) (second d) (minute d * 60 + second d))
    as [-> ->]; [lia | lia |].
  destruct (Z.ltb_spec 0 n) as [_|?]; [|lia].
  destruct (Z.leb_spec n MAXORDINAL) as [_|?]; [|lia].
  cbn [andb]. subst n. rewrite (ord2ymd_ymd2ord _ _ _ Hm Hd). reflexivity.
Qed.

(** Converting a valid [datetime] to UTC gives the [datetime] of its
    instant. *)
Lemma astimezone_utc_instant (d : datetime) :
  valid d -> astimezone_utc d = of_instant (instant d).
Proof.
  intros Hv. unfold astimezone_utc, instant.
  destruct (Z.eqb_spec (utcoffset d) 0) as [E|E].
  - rewrite E, Z.sub_0_r, (of_instant_local d Hv).
    destruct d; cbn in *; now subst.
  - unfold mbind, res_bind.
    rewrite add_timedelta_of_instant.
    replace (local_us d + - utcoffset d) with (local_us d - utcoffset d) by lia.
    destruct (of_instant (local_us d - utcoffset d)) as [r|] eqn:Hr;
      [|reflexivity].
    destruct (of_instant_spec _ _ Hr) as (Hvr & Hoff & Hlocal).
    rewrite add_timedelta_of_instant.
    assert (Hsame : replace_tzinfo (replace_tzinfo r (utcoffset d)) 0 = r)
      by (destruct r; cbn in *; now subst).
    rewrite Hsame. cbn [utcoffset replace_tzinfo].
    rewrite Z.add_0_r, Hlocal, Hr.
    f_equal. destruct r; cbn in *; now subst.
Qed.

End Instants.

Section ParsedTimestamps.

Lemma check_date_fields_ok (y m d : Z) (u : unit) :
  check_date_fields y m d = Ok u ->
  MINYEAR <= y <= MAXYEAR /\ 1 <= m <= 12 /\ 1 <= d <= days_in_month y m.
Proof.
  unfold check_date_fields.
  destruct (Z.leb_spec MINYEAR y), (Z.leb_spec y MAXYEAR);
    cbn [andb negb]; try discriminate.
  destruct (Z.leb_spec 1 m), (Z.leb_spec m 12);
    cbn [andb negb]; try discriminate.
  destruct (Z.leb_spec 1 d), (Z.leb_spec d (days_in_month y m));
    cbn [andb negb]; try discriminate.
  lia.
Qed.

Lemma check_time_fields_ok (h m s us : Z) (u : unit) :
  check_time_fields h m s us = Ok u ->
  0 <= h <= 23 /\ 0 <= m <= 59 /\ 0 <= s <= 59 /\ 0 <= us <= 999999.
Proof.
  unfold check_time_fields.
  destruct (Z.leb_spec 0 h), (Z.leb_spec h 23);
    cbn [andb negb]; try discriminate.
  destruct (Z.leb_spec 0 m), (Z.leb_spec m 59);
    cbn [andb negb]; try discriminate.
  destruct (Z.leb_spec 0 s), (Z.leb_spec s 59);
    cbn [andb negb]; try discriminate.
  destruct (Z.leb_spec 0 us), (Z.leb_spec us 999999);
    cbn [andb negb]; try discriminate.
  lia.
Qed.

Lemma check_timezone_ok (offset : Z) (u : unit) :
  check_timezone offset = Ok u -> -86400000000 < offset < 86400000000.
Proof.
  unfold check_timezone.
  destruct (Z.ltb_spec (-86400000000) offset), (Z.ltb_spec offset 86400000000);
    cbn [andb]; try discriminate. lia.
Qed.

(** What [strptime] returns passed the checks of the [datetime] and
    [timezone] constructors. *)
Lemma strptime_valid (timestamp : string) (d : datetime) :
  strptime timestamp = Ok d ->
  valid d /\ -86400000000 < utcoffset d < 86400000000.
Proof.
  unfold strptime.
  destruct (Re.rmatch format_regex timestamp) as [[found_dict rest]|] eqn:Hm;
    [|discriminate].
  destruct (truthy rest); [discriminate|].
  destruct (format_regex_groups _ _ _ Hm) as (Y & m & dd & H & M & S & f & z & ->).
  unfold mbind, res_bind, get_group. cbn [Re.group String.eqb Ascii.eqb Bool.eqb].
  repeat (cbn beta iota;
          lazymatch goal with
          | |- match ?x with Ok _ => _ | Raise _ => _ end = Ok _ -> _ =>
              let E := fresh "E" in destruct x eqn:E; [|discriminate]
          end).
  intros [= <-].
  repeat match goal with
         | E : check_date_fields _ _ _ = Ok _ |- _ =>
             apply check_date_fields_ok in E
         | E : check_time_fields _ _ _ _ = Ok _ |- _ =>
             apply check_time_fields_ok in E
         | E : check_timezone _ = Ok _ |- _ => apply check_timezone_ok in E
         end.
  unfold valid. cbn [year month day hour minute second microsecond utcoffset].
  split; [|assumption]. tauto.
Qed.

End ParsedTimestamps.

(** ** The timing lines of a block *)

Section Stamps.

#[local] Arguments String.append !_ _ / : simpl nomatch.

(** What the conversion to UTC returns for an accepted timestamp. *)
Lemma astimezone_utc_spec (timestamp : string) (d utc : datetime) :
  strptime timestamp = Ok d ->
  astimezone_utc d = Ok utc ->
  valid utc /\ utcoffset utc = 0 /\ local_us utc = instant d.
Proof.
  intros Hp Hu.
  rewrite (astimezone_utc_instant d) in Hu by (now apply (strptime_valid timestamp)).
  now apply of_instant_spec in Hu.
Qed.

(** [replace(hour=0, ...)] goes back to the start of the day. *)
Lemma replace_midnight_local (utc : datetime) :
  valid utc ->
  local_us (replace_midnight utc) = 86400000000 * (local_us utc / 86400000000)
  /\ local_us (replace_midnight utc) <= local_us utc
     < local_us (replace_midnight utc) + 86400000000.
Proof.
  intros (_ & _ & _ & Hh & Hm & Hs & Hus).
  unfold local_us, replace_midnight, toordinal.
  cbn [year month day hour minute second microsecond].
  set (n := ymd2ord (year utc) (month utc) (day utc)).
  assert (E : ((n * 86400 + hour utc * 3600 + minute utc * 60 + second utc)
               * 1000000 + microsecond utc) / 86400000000 = n).
  { symmetry. apply (Z.div_unique _ _ n
      ((hour utc * 3600 + minute utc * 60 + second utc) * 1000000
       + microsecond utc)); lia. }
  rewrite E. lia.
Qed.




End Stamps.

Section TimingClaims.




End TimingClaims.

Section TimingProperties.

(** X17. The stamps depend on the instant only: two timestamps that
    [strptime] accepts and that denote the same instant, whatever UTC
    offsets they are written with, get the same stamp and the same
    midnight stamp, or fail alike. *)
Theorem stamps_depend_on_instant (timestamp1 timestamp2 : string)
    (d1 d2 : datetime) :
  strptime timestamp1 = Ok d1 ->
  strptime timestamp2 = Ok d2 ->
  instant d1 = instant d2 ->
  utc_stamp timestamp1 = utc_stamp timestamp2
  /\ utc_midnight_stamp timestamp1 = utc_midnight_stamp timestamp2.
Proof.
  intros H1 H2 Hsame. unfold utc_stamp, utc_midnight_stamp, mbind, res_bind.
  rewrite H1, H2.
  rewrite (astimezone_utc_instant d1) by (now apply (strptime_valid timestamp1)).
  rewrite (astimezone_utc_instant d2) by (now apply (strptime_valid timestamp2)).
  rewrite Hsame. split; reflexivity.
Qed.

(** 23:30 at +02:00 and 21:30 at UTC. *)
Lemma stamps_depend_on_instant_witness :
  utc_stamp "2024-03-08T23:30:00.000000+02:00"
  = utc_stamp "2024-03-08T21:30:00.000000+00:00"
  /\ utc_midnight_stamp "2024-03-08T23:30:00.000000+02:00"
     = utc_midnight_stamp "2024-03-08T21:30:00.000000+00:00".
Proof.
  apply (stamps_depend_on_instant
           "2024-03-08T23:30:00.000000+02:00"
           "2024-03-08T21:30:00.000000+00:00"
           {| year := 2024; month := 3; day := 8; hour := 23; minute := 30;
              second := 0; microsecond := 0; utcoffset := 7200000000 |}
           {| year := 2024; month := 3; day := 8; hour := 21; minute := 30;
              second := 0; microsecond := 0; utcoffset := 0 |});
    vm_compute; reflexivity.
Defined.

(** X18. Converting an accepted timestamp to UTC keeps its instant: the
    result has a zero offset, passes the checks of the [datetime]
    constructor, and its wall clock is the wall clock of the timestamp
    less its UTC offset. *)
Theorem utc_conversion_keeps_instant (timestamp : string) (d utc : datetime) :
  strptime timestamp = Ok d ->
  astimezone_utc d = Ok utc ->
  valid utc /\ utcoffset utc = 0 /\ local_us utc = local_us d - utcoffset d.
Proof.
  intros Hp Hu.
  rewrite (astimezone_utc_instant d) in Hu by (now apply (strptime_valid timestamp)).
  now apply of_instant_spec in Hu.
Qed.

(** 23:30 at +02:00 is 21:30 in UTC. *)
Lemma utc_conversion_keeps_instant_witness :
  let d := {| year := 2024; month := 3; day := 8; hour := 23; minute := 30;
              second := 0; microsecond := 0; utcoffset := 7200000000 |} in
  let utc := {| year := 2024; month := 3; day := 8; hour := 21; minute := 30;
                second := 0; microsecond := 0; utcoffset := 0 |} in
  valid utc /\ utcoffset utc = 0 /\ local_us utc = local_us d - utcoffset d.
Proof.
  apply (utc_conversion_keeps_instant "2024-03-08T23:30:00.000000+02:00"
           {| year := 2024; month := 3; day := 8; hour := 23; minute := 30;
              second := 0; microsecond := 0; utcoffset := 7200000000 |}
           {| year := 2024; month := 3; day := 8; hour := 21; minute := 30;
              second := 0; microsecond := 0; utcoffset := 0 |});
    vm_compute; reflexivity.
Defined.

(** X19. The conversion to UTC can only overflow at the ends of the
    calendar: every timestamp [strptime] accepts with a year from 2 to
    9998 gets its stamp and its midnight stamp. *)
Theorem stamps_of_years_2_to_9998 (timestamp : string) (d : datetime) :
  strptime timestamp = Ok d ->
  2 <= year d <= 9998 ->
  is_ok (utc_stamp timestamp) = true
  /\ is_ok (utc_midnight_stamp timestamp) = true.
Proof.
  intros Hp Hy. destruct (strptime_valid _ _ Hp) as [Hv Hoff].
  unfold utc_stamp, utc_midnight_stamp, mbind, res_bind. rewrite Hp.
  rewrite (astimezone_utc_instant d Hv).
  assert (Hok : is_ok (of_instant (instant d)) = true);
    [|destruct (of_instant (instant d)); [split; reflexivity | discriminate]].
  destruct Hv as (Hyear & Hm & Hd & Hh & Hmi & Hs & Hus).
  destruct (ymd2ord_bounds _ _ _ Hyear Hm Hd) as (_ & Hlo & Hhi).
  specialize (Hlo ltac:(lia)). specialize (Hhi ltac:(lia)).
  unfold of_instant, instant, local_us, toordinal, MAXORDINAL in *. cbv zeta.
  set (n := ymd2ord (year d) (month d) (day d)) in *.
  set (t := (n * 86400 + hour d * 3600 + minute d * 60 + second d) * 1000000
            + microsecond d - utcoffset d).
  assert (Hdays : n - 1 <= t / 86400000000 <= n + 1).
  { split.
    - apply Z.div_le_lower_bound; [lia | subst t; lia].
    - apply Z.lt_succ_r. apply Z.div_lt_upper_bound; [lia | subst t; lia]. }
  destruct (Z.ltb_spec 0 (t / 86400000000)) as [_|?]; [|lia].
  destruct (Z.leb_spec (t / 86400000000) 3652059) as [_|?]; [|lia].
  cbn [andb]. now destruct (ord2ymd _) as [[? ?] ?].
Qed.

(** A due value of the year 2024. *)
Lemma stamps_of_years_2_to_9998_witness :
  is_ok (utc_stamp "2024-03-10T09:00:00.000000+00:00") = true
  /\ is_ok (utc_midnight_stamp "2024-03-10T09:00:00.000000+00:00") = true.
Proof.
  apply (stamps_of_years_2_to_9998 "2024-03-10T09:00:00.000000+00:00"
           {| year := 2024; month := 3; day := 10; hour := 9; minute := 0;
              second := 0; microsecond := 0; utcoffset := 0 |}).
  - vm_compute. reflexivity.
  - vm_compute. split; discriminate.
Defined.

End TimingProperties.

Section StampShape.

#[local] Arguments String.append !_ _ / : simpl nomatch.



End StampShape.

(** * Further properties of parsing, of the payload and of escaping *)

Section TimestampLength.

(** A match reads between [min_len] and [max_len] characters. *)
Lemma run_consumes (r : Re.re) :
  forall (s : string) (m : Re.found),
    m ∈ Re.run r s ->
    exists k : nat,
      String.length s = (k + String.length m.2)%nat
      /\ (Re.min_len r <= k <= Re.max_len r)%nat.
Proof.
  induction r as [| p | r1 IH1 r2 IH2 | r1 IH1 r2 IH2 | name r IH];
    cbn [Re.run Re.min_len Re.max_len]; intros s m Hm.
  - apply list_elem_of_singleton in Hm as ->. exists 0%nat. cbn. lia.
  - destruct s as [|c s]; [now apply not_elem_of_nil in Hm|].
    destruct (p c); [|now apply not_elem_of_nil in Hm].
    apply list_elem_of_singleton in Hm as ->. exists 1%nat. cbn. lia.
  - apply list_elem_of_bind in Hm as (m1 & Hm & Hm1).
    apply list_elem_of_bind in Hm as (m2 & Hm & Hm2).
    apply list_elem_of_singleton in Hm as ->. cbn [snd].
    destruct (IH1 _ _ Hm1) as (k1 & E1 & B1).
    destruct (IH2 _ _ Hm2) as (k2 & E2 & B2).
    exists (k1 + k2)%nat. lia.
  - apply elem_of_app in Hm as [Hm|Hm].
    + destruct (IH1 _ _ Hm) as (k & E & B). exists k. lia.
    + destruct (IH2 _ _ Hm) as (k & E & B). exists k. lia.
  - apply list_elem_of_bind in Hm as (m1 & Hm & Hm1).
    apply list_elem_of_singleton in Hm as ->. cbn [snd]. eauto.
Qed.

(** X20. [strptime] accepts no timestamp of fewer than 17 or more than
    42 characters: an empty value, a date without time or a time without
    offset is always a [ValueError]. *)
Theorem strptime_rejects_by_length (timestamp : string) :
  len timestamp < 17 \/ 42 < len timestamp ->
  strptime timestamp = Raise ValueError.
Proof.
  intros Hlen. apply strptime_no_match. intros found_dict Hm.
  unfold Re.rmatch in Hm.
  assert (Hin : (found_dict, "") ∈ Re.run format_regex timestamp).
  { destruct (Re.run format_regex timestamp) as [|x l]; [discriminate|].
    injection Hm as ->. left. }
  destruct (run_consumes _ _ _ Hin) as (k & E & B).
  change (Re.min_len format_regex) with 17%nat in B.
  change (Re.max_len format_regex) with 42%nat in B.
  cbn [snd String.length] in E. unfold len in Hlen. lia.
Qed.

(** A due value that is a date only. *)
Lemma strptime_rejects_by_length_witness :
  strptime "2024-03-10" = Raise ValueError.
Proof.
  apply (strptime_rejects_by_length "2024-03-10"). left.
  vm_compute. reflexivity.
Defined.

End TimestampLength.

Section PayloadSize.

(** X21. A produced payload has five lines for the calendar and nine
    for every card with a due value. *)
Theorem feed_payload_length (lists_by_id : gmap string TList)
    (cards : list Card) (ics_payload : list string) :
  feed_payload lists_by_id cards = Ok ics_payload ->
  List.length ics_payload
  = (5 + 9 * List.length
             (List.filter (fun card => truthy_opt (c_due card)) cards))%nat.
Proof.
  unfold feed_payload, mbind, res_bind. intros H.
  destruct (for_cards lists_by_id cards calendar_header) as [out|] eqn:Hf;
    [|discriminate].
  injection H as <-.
  destruct (for_cards_ok lists_by_id cards _ _ Hf) as (blocks & Hall & ->).
  fold (due_bearing cards).
  assert (Hlen : List.length (List.concat blocks)
                 = (9 * List.length (due_bearing cards))%nat).
  { clear Hf. induction Hall as [|card block cs bs Hb _ IH]; [reflexivity|].
    cbn [List.concat List.length]. rewrite length_app, IH.
    destruct (vevent_ok lists_by_id card block Hb)
      as (chunks & tlist & _ & _ & [(_ & sd & dd & _ & _ & ->)
                                   |(_ & dd & _ & ->)]);
      cbn [block_head app List.length]; lia. }
  rewrite !length_app, Hlen. cbn [calendar_header List.length]. lia.
Qed.

(** Three cards, two of them with a due value. *)
Lemma feed_payload_length_witness :
  List.length
    (calendar_header ++ Sample.ship_block ++ Sample.ship_started_block
       ++ ["END:VCALENDAR"])
  = (5 + 9 * List.length
             (List.filter (fun card => truthy_opt (c_due card))
                [Sample.ship; Sample.stray; Sample.ship_started]))%nat.
Proof.
  apply (feed_payload_length (by_id [Sample.work])
           [Sample.ship; Sample.stray; Sample.ship_started]).
  vm_compute. reflexivity.
Defined.

End PayloadSize.

Section AllDayStart.

(** X22. The DTSTART of a card with a start value is the midnight in
    UTC that opens the day of the start: its offset is zero, its wall
    clock is the instant of the start rounded down to a whole number of
    days, so it is never after the instant of the start and less than
    24 hours before it. *)
Theorem start_midnight_opens_the_day (timestamp : string) (d utc : datetime) :
  strptime timestamp = Ok d ->
  astimezone_utc d = Ok utc ->
  utc_midnight_stamp timestamp = Ok (strftime (replace_midnight utc))
  /\ utcoffset (replace_midnight utc) = 0
  /\ local_us (replace_midnight utc) = 86400000000 * (instant d / 86400000000)
  /\ local_us (replace_midnight utc) <= instant d
  /\ instant d < local_us (replace_midnight utc) + 86400000000.
Proof.
  intros Hp Hu. split.
  - unfold utc_midnight_stamp, mbind, res_bind. now rewrite Hp, Hu.
  - destruct (astimezone_utc_spec _ _ _ Hp Hu) as (Hv & Hoff & Hl).
    destruct (replace_midnight_local utc Hv) as [Hmid Hday].
    rewrite <- Hl. split; [exact Hoff|]. split; [exact Hmid|]. lia.
Qed.

(** A start at 01:30 on March 9 at +02:00: the midnight of March 8. *)
Lemma start_midnight_opens_the_day_witness :
  let d := {| year := 2024; month := 3; day := 9; hour := 1; minute := 30;
              second := 0; microsecond := 0; utcoffset := 7200000000 |} in
  let utc := {| year := 2024; month := 3; day := 8; hour := 23; minute := 30;
                second := 0; microsecond := 0; utcoffset := 0 |} in
  utc_midnight_stamp "2024-03-09T01:30:00.000000+02:00"
  = Ok (strftime (replace_midnight utc))
  /\ utcoffset (replace_midnight utc) = 0
  /\ local_us (replace_midnight utc) = 86400000000 * (instant d / 86400000000)
  /\ local_us (replace_midnight utc) <= instant d
  /\ instant d < local_us (replace_midnight utc) + 86400000000.
Proof.
  apply (start_midnight_opens_the_day "2024-03-09T01:30:00.000000+02:00"
           {| year := 2024; month := 3; day := 9; hour := 1; minute := 30;
              second := 0; microsecond := 0; utcoffset := 7200000000 |}
           {| year := 2024; month := 3; day := 8; hour := 23; minute := 30;
              second := 0; microsecond := 0; utcoffset := 0 |});
    vm_compute; reflexivity.
Defined.

End AllDayStart.

Section Escaping.

#[local] Arguments String.append !_ _ / : simpl nomatch.

Lemma append_comparable (u v x y : string) :
  u +:+ x = v +:+ y -> startswith u v = true \/ startswith v u = true.
Proof.
  revert v. induction u as [|a u IH]; intros [|b v]; simpl; auto.
  intros [= -> H]. rewrite Ascii.eqb_refl. cbn [andb]. now apply IH.
Qed.

Lemma append_cancel (u x y : string) : u +:+ x = u +:+ y -> x = y.
Proof. induction u as [|a u IH]; simpl; [auto | intros [= H]; auto]. Qed.

Lemma all_ascii (c : ascii) : In c (map ascii_of_nat (seq 0 256)).
Proof.
  apply in_map_iff. exists (nat_of_ascii c).
  split; [apply ascii_nat_embedding|].
  apply in_seq. pose proof (nat_ascii_bounded c). lia.
Qed.

(** No escape is the beginning of another one. *)
Lemma quote_char_prefix_free :
  forallb (fun a =>
    forallb (fun b =>
      Ascii.eqb a b
      || negb (startswith (quote_char a) (quote_char b)
               || startswith (quote_char b) (quote_char a)))
      (map ascii_of_nat (seq 0 256)))
    (map ascii_of_nat (seq 0 256)) = true.
Proof. vm_compute. reflexivity. Qed.

Lemma quote_char_decides (a b : ascii) (x y : string) :
  quote_char a +:+ x = quote_char b +:+ y -> a = b.
Proof.
  intros H. apply append_comparable in H.
  pose proof quote_char_prefix_free as C.
  rewrite forallb_forall in C. specialize (C a (all_ascii a)).
  rewrite forallb_forall in C. specialize (C b (all_ascii b)).
  destruct (Ascii.eqb_spec a b) as [E|_]; [exact E|].
  cbn [orb] in C. destruct H as [H|H]; rewrite H in C;
    [discriminate | now rewrite orb_true_r in C].
Qed.

Lemma quote_char_not_empty (c : ascii) (x : string) : quote_char c +:+ x <> "".
Proof.
  unfold quote_char, percent.
  repeat match goal with |- context [if ?b then _ else _] => destruct b end;
    discriminate.
Qed.

(** Equal escaped texts come from equal texts. *)
Lemma quote_plus_cancel (s1 : string) :
  forall s2, quote_plus s1 = quote_plus s2 -> s1 = s2.
Proof.
  induction s1 as [|a s1 IH]; intros [|b s2]; cbn [quote_plus]; intros H.
  - reflexivity.
  - symmetry in H. now apply quote_char_not_empty in H.
  - now apply quote_char_not_empty in H.
  - pose proof (quote_char_decides _ _ _ _ H) as ->.
    apply append_cancel in H. f_equal. now apply IH.
Qed.

(** X23. [quote_plus] loses nothing: two different texts never get the
    same escaped text, so the callback address in the redirect
    determines the host and the path key it was built from. *)
Theorem quote_plus_injective (s1 s2 : string) :
  s1 <> s2 -> quote_plus s1 <> quote_plus s2.
Proof. intros Hne H. now apply Hne, quote_plus_cancel. Qed.

(** A blank and a plus sign stay apart: [a+b] and [a%2Bb]. *)
Lemma quote_plus_injective_witness : quote_plus "a b" <> quote_plus "a+b".
Proof. apply (quote_plus_injective "a b" "a+b"). discriminate. Defined.

End Escaping.
